(** * Role lifecycle and access-control service

    A shallow embedding of the role service (package [service], file
    [role.go]) and of the contracts of its collaborators, followed by the
    properties of the service that the specification states.

    Conventions of the embedding.
    - A Go [uint64] identifier is an [N].  The service only compares
      identifiers ([== 0], [> 0], [!=]); it performs no arithmetic on
      them, so no wrap-around is involved.
    - A Go pointer [*types.Role] that may be [nil] is an [option]; a Go
      result pair [(value, error)] is a pair whose second component is an
      [option] ([None] is the [nil] error).  Both components are kept,
      because the service sometimes ignores the error and looks at the
      value (see [UniqueCheck]).
    - The repository is stateful.  Every one of its methods is a function
      from the store to a result and a store, and every invocation is
      appended to a log of calls, so that the order and the absence of
      repository calls can be stated.
    - A role returned by the repository is a value of its own (a struct
      decoded from the database); assigning to its fields does not touch
      the store.
    - The access controller answers from the acting identity and the
      role it is given; its answers are plain booleans.
    - A nil-pointer dereference is the outcome [Panic]. *)

From Stdlib Require Import String List NArith Bool Lia.
Import ListNotations.

Set Implicit Arguments.
Local Open Scope string_scope.
Local Open Scope N_scope.

(* ================================================================== *)
(** ** Package [types] *)

Module types.

(** Modelled from the spec: [types.Role] of the system package is not
    among the sources.  The spec gives it a numeric ID (0 = unset), a
    [Name], a [Handle] and lifecycle flags (archived-at, deleted-at); the
    service reads and writes [ID], [Name] and [Handle] only.  [Rest]
    stands for every remaining field of the struct. *)
Record Role (Extra : Type) : Type := mkRole {
  ID : N;
  Name : string;
  Handle : string;
  ArchivedAt : option N;
  DeletedAt : option N;
  Rest : Extra
}.

(** [t.Name = v] on a role. *)
Definition setName (Extra : Type) (t : Role Extra) (v : string) : Role Extra :=
  {| ID := ID t; Name := v; Handle := Handle t;
     ArchivedAt := ArchivedAt t; DeletedAt := DeletedAt t; Rest := Rest t |}.

(** [t.Handle = v] on a role. *)
Definition setHandle (Extra : Type) (t : Role Extra) (v : string) : Role Extra :=
  {| ID := ID t; Name := Name t; Handle := v;
     ArchivedAt := ArchivedAt t; DeletedAt := DeletedAt t; Rest := Rest t |}.

(** Modelled from the spec: [types.RoleMember] relates a role to a user by
    numeric identifiers. *)
Record RoleMember : Type := mkRoleMember {
  RoleID : N;
  UserID : N
}.

(** Modelled from the spec: [types.RoleFilter] has a deletion-visibility
    flag (0 = none), a free-text match and the injected read-visibility
    predicate [IsReadable], a pointer to a resource filter of the
    permissions package ([RF], opaque here). *)
Record RoleFilter (RF : Type) : Type := mkRoleFilter {
  Query : string;
  Deleted : N;
  IsReadable : option RF
}.

(** [f.IsReadable = v] on a filter. *)
Definition setIsReadable (RF : Type) (f : RoleFilter RF) (v : option RF) : RoleFilter RF :=
  {| Query := Query f; Deleted := Deleted f; IsReadable := v |}.

Definition RoleSet (Extra : Type) : Type := list (Role Extra).

End types.

(* ================================================================== *)
(** ** Package [repository] *)

Module repository.
Import types.

(** Errors produced by the repository (not-found, persistence failures).
    They are opaque to the service, which only forwards them. *)
Definition repositoryError : Type := string.

(** A repository method: it reads the store and may change it. *)
Definition method (Store A : Type) : Type := Store -> A * Store.

(** Modelled from the spec: the [RoleRepository] interface is not among
    the sources.  Its methods are the ones the service calls, with the
    argument and result shapes of those calls. *)
Record RoleRepository (Store Extra RF : Type) : Type := {
  FindByID : N -> method Store (option (Role Extra) * option repositoryError);
  FindByName : string -> method Store (option (Role Extra) * option repositoryError);
  FindByHandle : string -> method Store (option (Role Extra) * option repositoryError);
  Find : RoleFilter RF ->
         method Store (RoleSet Extra * RoleFilter RF * option repositoryError);
  Create : Role Extra -> method Store (option (Role Extra) * option repositoryError);
  Update : Role Extra -> method Store (option (Role Extra) * option repositoryError);
  ArchiveByID : N -> method Store (option repositoryError);
  UnarchiveByID : N -> method Store (option repositoryError);
  DeleteByID : N -> method Store (option repositoryError);
  UndeleteByID : N -> method Store (option repositoryError);
  MergeByID : N -> N -> method Store (option repositoryError);
  MoveByID : N -> N -> method Store (option repositoryError);
  MembershipsFindByUserID : N -> method Store (list RoleMember * option repositoryError);
  MemberFindByRoleID : N -> method Store (list RoleMember * option repositoryError);
  MemberAddByID : N -> N -> method Store (option repositoryError);
  MemberRemoveByID : N -> N -> method Store (option repositoryError)
}.

(** The repository calls the service can make, as they appear in the log. *)
Inductive Call (Extra RF : Type) : Type :=
| CallFindByID (id : N)
| CallFindByName (name : string)
| CallFindByHandle (handle : string)
| CallFind (f : RoleFilter RF)
| CallCreate (r : Role Extra)
| CallUpdate (r : Role Extra)
| CallArchiveByID (id : N)
| CallUnarchiveByID (id : N)
| CallDeleteByID (id : N)
| CallUndeleteByID (id : N)
| CallMergeByID (id target : N)
| CallMoveByID (id target : N)
| CallMembershipsFindByUserID (userID : N)
| CallMemberFindByRoleID (id : N)
| CallMemberAddByID (id userID : N)
| CallMemberRemoveByID (id userID : N).

Arguments CallFindByID {Extra RF} id.
Arguments CallFindByName {Extra RF} name.
Arguments CallFindByHandle {Extra RF} handle.
Arguments CallFind {Extra RF} f.
Arguments CallCreate {Extra RF} r.
Arguments CallUpdate {Extra RF} r.
Arguments CallArchiveByID {Extra RF} id.
Arguments CallUnarchiveByID {Extra RF} id.
Arguments CallDeleteByID {Extra RF} id.
Arguments CallUndeleteByID {Extra RF} id.
Arguments CallMergeByID {Extra RF} id target.
Arguments CallMoveByID {Extra RF} id target.
Arguments CallMembershipsFindByUserID {Extra RF} userID.
Arguments CallMemberFindByRoleID {Extra RF} id.
Arguments CallMemberAddByID {Extra RF} id userID.
Arguments CallMemberRemoveByID {Extra RF} id userID.

(** The calls that only look something up. *)
Definition isLookup (Extra RF : Type) (c : Call Extra RF) : bool :=
  match c with
  | CallFindByID _ | CallFindByName _ | CallFindByHandle _ | CallFind _
  | CallMembershipsFindByUserID _ | CallMemberFindByRoleID _ => true
  | _ => false
  end.

End repository.

(* ================================================================== *)
(** ** Package [service] *)

Module service.
Import types.
Export repository.

(** [type serviceError string]. *)
Definition serviceError : Type := string.

(** The Go [error] values the role service can return. *)
Inductive error : Type :=
| asError (e : serviceError)          (* a [serviceError] returned as it is *)
| withStack (e : serviceError)        (* [e.withStack()] *)
| errorsNew (msg : string)            (* [errors.New(msg)] *)
| fromRepository (e : repositoryError). (* an error returned by the repository *)

Definition ErrRoleNameNotUnique : serviceError := "RoleNameNotUnique".
Definition ErrRoleHandleNotUnique : serviceError := "RoleHandleNotUnique".

(** Modelled from the spec: the five constants below are declared in
    another file of package [service]; the spec names their kinds. *)
Definition ErrInvalidID : serviceError := "InvalidID".
Definition ErrInvalidHandle : serviceError := "InvalidHandle".
Definition ErrNoPermissions : serviceError := "NoPermission".
Definition ErrNoCreatePermissions : serviceError := "NoCreatePermission".
Definition ErrNoUpdatePermissions : serviceError := "NoUpdatePermission".

(** Validation failures (InvalidID, InvalidHandle) and authorization
    failures (NoPermission, NoCreatePermission, NoUpdatePermission). *)
Definition isValidationOrAuthorization (e : error) : bool :=
  match e with
  | asError k => String.eqb k ErrInvalidID || String.eqb k ErrInvalidHandle
  | withStack k =>
      String.eqb k ErrNoPermissions || String.eqb k ErrNoCreatePermissions
      || String.eqb k ErrNoUpdatePermissions
  | _ => false
  end.

(** The interface [roleAccessController]; [Ctx] is [context.Context]. *)
Record roleAccessController (Ctx Extra RF : Type) : Type := {
  CanAccess : Ctx -> bool;
  CanCreateRole : Ctx -> bool;
  CanReadRole : Ctx -> option (Role Extra) -> bool;
  CanUpdateRole : Ctx -> option (Role Extra) -> bool;
  CanDeleteRole : Ctx -> option (Role Extra) -> bool;
  CanManageRoleMembers : Ctx -> option (Role Extra) -> bool;
  FilterReadableRoles : Ctx -> option RF
}.

(** The struct [role].  The database handle [db] is the [Store] threaded
    through the computation; [repo] is the field [role] of the struct
    (the name is taken by the struct itself); the logger is not used by
    the operations. *)
Record role (Ctx Store Extra RF : Type) : Type := {
  ctx : Ctx;
  ac : roleAccessController Ctx Extra RF;
  repo : RoleRepository Store Extra RF
}.

(** *** The computation monad *)

(** What the service runs against: the store and the log of the
    repository calls made so far (oldest first). *)
Record World (Store Extra RF : Type) : Type := {
  store : Store;
  calls : list (Call Extra RF)
}.

Inductive outcome (A : Type) : Type :=
| Done (a : A)
| Panic.

Arguments Panic {A}.

Section Monad.
Context {Store Extra RF : Type}.

Definition M (A : Type) : Type :=
  World Store Extra RF -> outcome A * World Store Extra RF.

Definition ret (A : Type) (a : A) : M A := fun w => (Done a, w).

Definition bind (A B : Type) (m : M A) (k : A -> M B) : M B :=
  fun w => match m w with
           | (Done a, w') => k a w'
           | (Panic, w') => (Panic, w')
           end.

Definition panic {A : Type} : M A := fun w => (Panic, w).

(** One repository call: run the method on the store and log the call. *)
Definition invoke (A : Type) (c : Call Extra RF) (m : method Store A) : M A :=
  fun w => let (a, s) := m (store w) in
           (Done a, {| store := s; calls := calls w ++ [c] |}).

(** Modelled from the spec: [db.Transaction] belongs to the database
    library and is not among the sources.  It "runs a closure and commits
    only if it returns no error, rolling back otherwise", on all exit
    paths.  The closure's result carries, next to the error, the value
    [t] of the variable it captures and assigns.  A roll-back restores
    the store; the log of calls is an observation and is kept. *)
Definition Transaction (T : Type) (fn : M (T * option error)) : M (T * option error) :=
  fun w => match fn w with
           | (Done (t, None), w') => (Done (t, None), w')
           | (Done (t, Some e), w') =>
               (Done (t, Some e), {| store := store w; calls := calls w' |})
           | (Panic, w') => (Panic, {| store := store w; calls := calls w' |})
           end.

End Monad.

Notation "x <- m ;; k" := (bind m (fun x => k))
  (at level 61, m at next level, right associativity).
Notation "' pat <- m ;; k" := (bind m (fun x => match x with pat => k end))
  (at level 61, pat pattern, m at next level, right associativity).

(** The repository error of a result, as the [error] the service returns. *)
Definition lift (e : option repositoryError) : option error :=
  option_map fromRepository e.

(** *** The operations *)

Section Operations.
Context {Ctx Store Extra RF : Type}.

(** [handle.IsValid], the external handle-validity predicate. *)
Variable IsValid : string -> bool.

Variable svc : role Ctx Store Extra RF.

Local Abbreviation Role := (Role Extra).
Local Abbreviation RoleFilter := (RoleFilter RF).
Local Abbreviation M := (@M Store Extra RF).

Definition findByID (roleID : N) : M (option Role * option error) :=
  if roleID =? 0 then ret (None, Some (asError ErrInvalidID))
  else
    '(role, err) <- invoke (CallFindByID roleID) (FindByID (repo svc) roleID) ;;
    match err with
    | Some e => ret (None, Some (fromRepository e))
    | None =>
        if negb (CanReadRole (ac svc) (ctx svc) role)
        then ret (None, Some (withStack ErrNoPermissions))
        else ret (role, None)
    end.

Definition FindByID (roleID : N) : M (option Role * option error) :=
  findByID roleID.

Definition Find (f : RoleFilter)
  : M (RoleSet Extra * RoleFilter * option error) :=
  let f := setIsReadable f (FilterReadableRoles (ac svc) (ctx svc)) in
  let delegate : M (RoleSet Extra * RoleFilter * option error) :=
    '(set, f', err) <- invoke (CallFind f) (repository.Find (repo svc) f) ;;
    ret (set, f', lift err) in
  if 0 <? Deleted f then
    if negb (CanAccess (ac svc) (ctx svc))
    then ret ([], f, Some (withStack ErrNoPermissions))
    else delegate
  else delegate.

Definition FindByName (rolename : string) : M (option Role * option error) :=
  '(r, err) <- invoke (CallFindByName rolename) (repository.FindByName (repo svc) rolename) ;;
  ret (r, lift err).

Definition FindByHandle (handle : string) : M (option Role * option error) :=
  '(r, err) <- invoke (CallFindByHandle handle) (repository.FindByHandle (repo svc) handle) ;;
  ret (r, lift err).

(** [ex != nil && ex.ID > 0 && ex.ID != r.ID] *)
Definition conflicts (ex : option Role) (r : Role) : bool :=
  match ex with
  | Some ex => (0 <? ID ex) && negb (ID ex =? ID r)
  | None => false
  end.

(** The second half of [UniqueCheck]: the check on [r.Name]. *)
Definition uniqueName (r : Role) : M (option error) :=
  if negb (String.eqb (Name r) "") then
    '(ex, _) <- invoke (CallFindByName (Name r)) (repository.FindByName (repo svc) (Name r)) ;;
    if conflicts ex r then ret (Some (asError ErrRoleNameNotUnique))
    else ret None
  else ret None.

Definition UniqueCheck (r : Role) : M (option error) :=
  if negb (String.eqb (Handle r) "") then
    '(ex, _) <- invoke (CallFindByHandle (Handle r))
                       (repository.FindByHandle (repo svc) (Handle r)) ;;
    if conflicts ex r then ret (Some (asError ErrRoleHandleNotUnique))
    else uniqueName r
  else uniqueName r.

(** The payload [mod] of the source is [md] here ([mod] is taken by the
    arithmetic notation).  [return t, svc.db.Transaction(...)]: the result [t] is the variable
    the closure assigns, read once the transaction has returned (the
    behaviour of the Go compiler for a call next to a plain variable). *)
Definition Create (md : Role) : M (option Role * option error) :=
  if negb (IsValid (Handle md)) then ret (None, Some (asError ErrInvalidHandle))
  else if negb (CanCreateRole (ac svc) (ctx svc))
  then ret (None, Some (withStack ErrNoCreatePermissions))
  else
    Transaction (
      err <- UniqueCheck md ;;
      match err with
      | Some e => ret (None, Some e)
      | None =>
          '(t, err) <- invoke (CallCreate md) (repository.Create (repo svc) md) ;;
          ret (t, lift err)
      end).

Definition Update (md : Role) : M (option Role * option error) :=
  if ID md =? 0 then ret (None, Some (asError ErrInvalidID))
  else if negb (IsValid (Handle md)) then ret (None, Some (asError ErrInvalidHandle))
  else if negb (CanUpdateRole (ac svc) (ctx svc) (Some md))
  then ret (None, Some (withStack ErrNoUpdatePermissions))
  else
    Transaction (
      '(t, err) <- invoke (CallFindByID (ID md)) (repository.FindByID (repo svc) (ID md)) ;;
      match err with
      | Some e => ret (t, Some (fromRepository e))
      | None =>
          err <- UniqueCheck md ;;
          match err with
          | Some e => ret (t, Some e)
          | None =>
              match t with
              | None => panic   (* [t.Name = ...] on a nil pointer *)
              | Some t =>
                  let t := setName t (Name md) in
                  let t := setHandle t (Handle md) in
                  '(t, err) <- invoke (CallUpdate t) (repository.Update (repo svc) t) ;;
                  ret (t, lift err)
              end
          end
      end).

Definition Delete (roleID : N) : M (option error) :=
  '(role, err) <- findByID roleID ;;
  match err with
  | Some e => ret (Some e)
  | None =>
      if negb (CanDeleteRole (ac svc) (ctx svc) role)
      then ret (Some (withStack ErrNoPermissions))
      else
        err <- invoke (CallDeleteByID roleID) (DeleteByID (repo svc) roleID) ;;
        ret (lift err)
  end.

Definition Undelete (roleID : N) : M (option error) :=
  '(role, err) <- findByID roleID ;;
  match err with
  | Some e => ret (Some e)
  | None =>
      if negb (CanDeleteRole (ac svc) (ctx svc) role)
      then ret (Some (withStack ErrNoPermissions))
      else
        err <- invoke (CallUndeleteByID roleID) (UndeleteByID (repo svc) roleID) ;;
        ret (lift err)
  end.

Definition Archive (roleID : N) : M (option error) :=
  '(role, err) <- findByID roleID ;;
  match err with
  | Some e => ret (Some e)
  | None =>
      if negb (CanUpdateRole (ac svc) (ctx svc) role)
      then ret (Some (withStack ErrNoPermissions))
      else
        err <- invoke (CallArchiveByID roleID) (ArchiveByID (repo svc) roleID) ;;
        ret (lift err)
  end.

Definition Unarchive (roleID : N) : M (option error) :=
  '(role, err) <- findByID roleID ;;
  match err with
  | Some e => ret (Some e)
  | None =>
      if negb (CanUpdateRole (ac svc) (ctx svc) role)
      then ret (Some (withStack ErrNoPermissions))
      else
        err <- invoke (CallUnarchiveByID roleID) (UnarchiveByID (repo svc) roleID) ;;
        ret (lift err)
  end.

Definition Merge (roleID targetRoleID : N) : M (option error) :=
  '(role, err) <- findByID roleID ;;
  match err with
  | Some e => ret (Some e)
  | None =>
      if targetRoleID =? 0 then ret (Some (asError ErrInvalidID))
      else if negb (CanUpdateRole (ac svc) (ctx svc) role)
      then ret (Some (withStack ErrNoPermissions))
      else
        err <- invoke (CallMergeByID roleID targetRoleID)
                      (MergeByID (repo svc) roleID targetRoleID) ;;
        ret (lift err)
  end.

Definition Move (roleID targetOrganisationID : N) : M (option error) :=
  '(role, err) <- findByID roleID ;;
  match err with
  | Some e => ret (Some e)
  | None =>
      if targetOrganisationID =? 0 then ret (Some (asError ErrInvalidID))
      else if negb (CanUpdateRole (ac svc) (ctx svc) role)
      then ret (Some (withStack ErrNoPermissions))
      else
        err <- invoke (CallMoveByID roleID targetOrganisationID)
                      (MoveByID (repo svc) roleID targetOrganisationID) ;;
        ret (lift err)
  end.

Definition Membership (userID : N) : M (list RoleMember * option error) :=
  '(mm, err) <- invoke (CallMembershipsFindByUserID userID)
                       (MembershipsFindByUserID (repo svc) userID) ;;
  ret (mm, lift err).

Definition MemberList (roleID : N) : M (list RoleMember * option error) :=
  '(_, err) <- findByID roleID ;;
  match err with
  | Some e => ret ([], Some e)
  | None =>
      '(mm, err) <- invoke (CallMemberFindByRoleID roleID)
                           (MemberFindByRoleID (repo svc) roleID) ;;
      ret (mm, lift err)
  end.

Definition MemberAdd (roleID userID : N) : M (option error) :=
  '(role, err) <- findByID roleID ;;
  match err with
  | Some e => ret (Some e)
  | None =>
      if userID =? 0 then ret (Some (asError ErrInvalidID))
      else if negb (CanManageRoleMembers (ac svc) (ctx svc) role)
      then ret (Some (errorsNew "Not allowed to manage role members"))
      else
        err <- invoke (CallMemberAddByID roleID userID)
                      (MemberAddByID (repo svc) roleID userID) ;;
        ret (lift err)
  end.

Definition MemberRemove (roleID userID : N) : M (option error) :=
  '(role, err) <- findByID roleID ;;
  match err with
  | Some e => ret (Some e)
  | None =>
      if userID =? 0 then ret (Some (asError ErrInvalidID))
      else if negb (CanManageRoleMembers (ac svc) (ctx svc) role)
      then ret (Some (errorsNew "Not allowed to manage role members"))
      else
        err <- invoke (CallMemberRemoveByID roleID userID)
                      (MemberRemoveByID (repo svc) roleID userID) ;;
        ret (lift err)
  end.

(** *** The service surface *)

(** An operation of [RoleService] together with its arguments. *)
Inductive operation : Type :=
| OpFindByID (roleID : N)
| OpFindByName (name : string)
| OpFindByHandle (handle : string)
| OpFind (f : RoleFilter)
| OpCreate (md : Role)
| OpUpdate (md : Role)
| OpMerge (roleID targetRoleID : N)
| OpMove (roleID targetOrganisationID : N)
| OpArchive (roleID : N)
| OpUnarchive (roleID : N)
| OpDelete (roleID : N)
| OpUndelete (roleID : N)
| OpMembership (userID : N)
| OpMemberList (roleID : N)
| OpMemberAdd (roleID userID : N)
| OpMemberRemove (roleID userID : N).

(** Keep the [error] result of an operation that also returns a value. *)
Definition errOnly (A : Type) (m : M (A * option error)) : M (option error) :=
  x <- m ;; ret (snd x).

(** Run an operation and keep what it reports: its error result. *)
Definition errorOf (op : operation) : M (option error) :=
  match op with
  | OpFindByID roleID => errOnly (FindByID roleID)
  | OpFindByName name => errOnly (FindByName name)
  | OpFindByHandle handle => errOnly (FindByHandle handle)
  | OpFind f => errOnly (Find f)
  | OpCreate md => errOnly (Create md)
  | OpUpdate md => errOnly (Update md)
  | OpMerge roleID targetRoleID => Merge roleID targetRoleID
  | OpMove roleID targetOrganisationID => Move roleID targetOrganisationID
  | OpArchive roleID => Archive roleID
  | OpUnarchive roleID => Unarchive roleID
  | OpDelete roleID => Delete roleID
  | OpUndelete roleID => Undelete roleID
  | OpMembership userID => errOnly (Membership userID)
  | OpMemberList roleID => errOnly (MemberList roleID)
  | OpMemberAdd roleID userID => MemberAdd roleID userID
  | OpMemberRemove roleID userID => MemberRemove roleID userID
  end.

(** The role identifier of the operations that start with [findByID]. *)
Definition gateID (op : operation) : option N :=
  match op with
  | OpFindByID roleID | OpMerge roleID _ | OpMove roleID _
  | OpArchive roleID | OpUnarchive roleID | OpDelete roleID | OpUndelete roleID
  | OpMemberList roleID | OpMemberAdd roleID _ | OpMemberRemove roleID _ => Some roleID
  | _ => None
  end.

(** The second identifier of the operations that take two. *)
Definition secondID (op : operation) : option N :=
  match op with
  | OpMerge _ id | OpMove _ id | OpMemberAdd _ id | OpMemberRemove _ id => Some id
  | _ => None
  end.

End Operations.

End service.

(* ================================================================== *)
(** ** An in-memory repository

    A small executable repository and access controller, on which the
    operations can be run. *)

Module memory.
Import types.
Import service.

Record Store : Type := {
  roles : list (Role unit);
  members : list RoleMember
}.

Definition ErrRoleNotFound : repositoryError := "RoleNotFound".

Definition lookup (p : Role unit -> bool) (s : Store)
  : (option (Role unit) * option repositoryError) * Store :=
  match find p (roles s) with
  | Some r => ((Some r, None), s)
  | None => ((None, Some ErrRoleNotFound), s)
  end.

Definition nextID (s : Store) : N :=
  N.succ (fold_right (fun r m => N.max (ID r) m) 0 (roles s)).

Definition withID (r : Role unit) (id : N) : Role unit :=
  {| ID := id; Name := Name r; Handle := Handle r;
     ArchivedAt := ArchivedAt r; DeletedAt := DeletedAt r; Rest := Rest r |}.

Definition withFlags (r : Role unit) (a d : option N) : Role unit :=
  {| ID := ID r; Name := Name r; Handle := Handle r;
     ArchivedAt := a; DeletedAt := d; Rest := Rest r |}.

Definition create (r : Role unit) (s : Store)
  : (option (Role unit) * option repositoryError) * Store :=
  let r' := withID r (nextID s) in
  ((Some r', None), {| roles := roles s ++ [r']; members := members s |}).

Definition replace (r : Role unit) (s : Store) : Store :=
  {| roles := map (fun x => if ID x =? ID r then r else x) (roles s);
     members := members s |}.

Definition update (r : Role unit) (s : Store)
  : (option (Role unit) * option repositoryError) * Store :=
  if existsb (fun x => ID x =? ID r) (roles s)
  then ((Some r, None), replace r s)
  else ((Some r, Some ErrRoleNotFound), s).

Definition transition (f : Role unit -> Role unit) (id : N) (s : Store)
  : option repositoryError * Store :=
  match find (fun x => ID x =? id) (roles s) with
  | Some r => (None, replace (f r) s)
  | None => (Some ErrRoleNotFound, s)
  end.

Definition visible (f : RoleFilter unit) (r : Role unit) : bool :=
  match DeletedAt r with
  | None => true
  | Some _ => 0 <? Deleted f
  end.

Definition repo : RoleRepository Store unit unit := {|
  repository.FindByID := fun id => lookup (fun r => ID r =? id);
  repository.FindByName := fun n => lookup (fun r => String.eqb (Name r) n);
  repository.FindByHandle := fun h => lookup (fun r => String.eqb (Handle r) h);
  repository.Find := fun f s => ((filter (visible f) (roles s), f, None), s);
  repository.Create := create;
  repository.Update := update;
  ArchiveByID := transition (fun r => withFlags r (Some 1) (DeletedAt r));
  UnarchiveByID := transition (fun r => withFlags r None (DeletedAt r));
  DeleteByID := transition (fun r => withFlags r (ArchivedAt r) (Some 1));
  UndeleteByID := transition (fun r => withFlags r (ArchivedAt r) None);
  MergeByID := fun id _ => transition (fun r => r) id;
  MoveByID := fun id _ => transition (fun r => r) id;
  MembershipsFindByUserID := fun u s =>
    ((filter (fun m => UserID m =? u) (members s), None), s);
  MemberFindByRoleID := fun id s =>
    ((filter (fun m => RoleID m =? id) (members s), None), s);
  MemberAddByID := fun id u s =>
    (None, {| roles := roles s;
              members := members s ++ [{| RoleID := id; UserID := u |}] |});
  MemberRemoveByID := fun id u s =>
    (None, {| roles := roles s;
              members := filter (fun m => negb ((RoleID m =? id) && (UserID m =? u)))
                                (members s) |})
|}.

(** The acting identity is a number: 1 is an administrator, 2 may read
    every role and nothing else, anybody else may do nothing. *)
Definition accessControl : roleAccessController N unit unit := {|
  CanAccess := fun c => c =? 1;
  CanCreateRole := fun c => c =? 1;
  CanReadRole := fun c _ => (c =? 1) || (c =? 2);
  CanUpdateRole := fun c _ => c =? 1;
  CanDeleteRole := fun c _ => c =? 1;
  CanManageRoleMembers := fun c _ => c =? 1;
  FilterReadableRoles := fun _ => Some tt
|}.

(** A handle is valid here when it has at least two characters. *)
Definition isValid (h : string) : bool := Nat.leb 2 (String.length h).

(** A variant that the empty handle passes as well. *)
Definition isValidOrEmpty (h : string) : bool :=
  String.eqb h "" || isValid h.

Definition svc (c : N) : role N Store unit unit :=
  {| ctx := c; ac := accessControl; service.repo := repo |}.

Definition admins : Role unit :=
  {| ID := 5; Name := "Admins"; Handle := "admins";
     ArchivedAt := None; DeletedAt := None; Rest := tt |}.

Definition guests : Role unit :=
  {| ID := 7; Name := "Guests"; Handle := "guests";
     ArchivedAt := Some 3; DeletedAt := None; Rest := tt |}.

Definition store0 : Store :=
  {| roles := [admins; guests];
     members := [{| RoleID := 5; UserID := 1 |}] |}.

Definition world0 : World Store unit unit := {| store := store0; calls := [] |}.

(** A new role that asks for the handle of [admins]. *)
Definition newAdmins : Role unit :=
  {| ID := 0; Name := "Other"; Handle := "admins";
     ArchivedAt := None; DeletedAt := None; Rest := tt |}.

(** The same payload carrying the ID of [admins]. *)
Definition sameID : Role unit :=
  {| ID := 5; Name := "Other"; Handle := "admins";
     ArchivedAt := None; DeletedAt := None; Rest := tt |}.

(** A payload without a handle. *)
Definition noHandle : Role unit :=
  {| ID := 0; Name := "Other"; Handle := "";
     ArchivedAt := None; DeletedAt := None; Rest := tt |}.

(** An update of [guests]; the lifecycle flags of the payload differ from
    the stored ones. *)
Definition visitors : Role unit :=
  {| ID := 7; Name := "Visitors"; Handle := "visitors";
     ArchivedAt := None; DeletedAt := Some 9; Rest := tt |}.

(** A filter that asks for deleted roles. *)
Definition withDeleted : RoleFilter unit :=
  {| Query := ""; Deleted := 1; IsReadable := None |}.

(** An update of [guests] that keeps its handle and asks for the name of
    [admins]. *)
Definition takeover : Role unit :=
  {| ID := 7; Name := "Admins"; Handle := "guests";
     ArchivedAt := None; DeletedAt := None; Rest := tt |}.

(** A payload with neither handle nor name. *)
Definition blank : Role unit :=
  {| ID := 0; Name := ""; Handle := "";
     ArchivedAt := None; DeletedAt := None; Rest := tt |}.



(** An access controller for which nobody may read a role but identity 1
    holds every other capability. *)
Definition blindControl : roleAccessController N unit unit := {|
  CanAccess := fun c => c =? 1;
  CanCreateRole := fun c => c =? 1;
  CanReadRole := fun _ _ => false;
  CanUpdateRole := fun c _ => c =? 1;
  CanDeleteRole := fun c _ => c =? 1;
  CanManageRoleMembers := fun c _ => c =? 1;
  FilterReadableRoles := fun _ => Some tt
|}.

Definition svcBlind (c : N) : role N Store unit unit :=
  {| ctx := c; ac := blindControl; service.repo := repo |}.

End memory.

(* ================================================================== *)
(** ** Properties of the role service *)

Module spec.
Import types.
Import service.

Unset Implicit Arguments.
Local Open Scope list_scope.

Section Properties.
Context {Ctx Store Extra RF : Type}.
Variable IsValid : string -> bool.
Variable svc : role Ctx Store Extra RF.

Local Abbreviation Role := (Role Extra).
Local Abbreviation World := (World Store Extra RF).

(** The world after one more repository call [c] that left the store [s]. *)
Definition after (w : World) (s : Store) (c : Call Extra RF) : World :=
  {| store := s; calls := calls w ++ [c] |}.

(** The world [w] once its store is rolled back to the store of [w0]. *)
Definition rolledBack (w0 w : World) : World :=
  {| store := store w0; calls := calls w |}.

(** The world after the fetch [svc.role.FindByID(id)]. *)
Definition afterFetch (id : N) (w : World) : World :=
  after w (snd (repository.FindByID (repo svc) id (store w))) (CallFindByID id).

(** What the fetch returns: the role and the repository's error. *)
Definition fetched (id : N) (w : World) : option Role * option repositoryError :=
  fst (repository.FindByID (repo svc) id (store w)).

(** *** The uniqueness check, in the words of the specification *)

(** The role the repository returns for the handle of [r]. *)
Definition handleOwner (r : Role) (w : World) : option Role :=
  fst (fst (repository.FindByHandle (repo svc) (Handle r) (store w))).

(** The world after the handle check: one lookup, unless the handle is
    empty. *)
Definition afterHandleLookup (r : Role) (w : World) : World :=
  if String.eqb (Handle r) "" then w
  else after w (snd (repository.FindByHandle (repo svc) (Handle r) (store w)))
               (CallFindByHandle (Handle r)).

(** The role the repository returns for the name of [r]. *)
Definition nameOwner (r : Role) (w : World) : option Role :=
  fst (fst (repository.FindByName (repo svc) (Name r) (store w))).

(** The world after the name check: one lookup, unless the name is empty. *)
Definition afterNameLookup (r : Role) (w : World) : World :=
  if String.eqb (Name r) "" then w
  else after w (snd (repository.FindByName (repo svc) (Name r) (store w)))
               (CallFindByName (Name r)).

(** [ex] is another role: it exists, has a non-zero ID, and that ID is
    not the ID of [r]. *)
Definition isOther (ex : option Role) (r : Role) : Prop :=
  exists x, ex = Some x /\ 0 < ID x /\ ID x <> ID r.

(** The handle of [r] is non-empty and another role owns it. *)
Definition handleTaken (r : Role) (w : World) : Prop :=
  Handle r <> "" /\ isOther (handleOwner r w) r.

(** The name of [r] is non-empty and another role owns it; the name is
    looked up after the handle. *)
Definition nameTaken (r : Role) (w : World) : Prop :=
  Name r <> "" /\ isOther (nameOwner r (afterHandleLookup r w)) r.

(** The same two conditions as booleans. *)
Definition handleTakenb (r : Role) (w : World) : bool :=
  negb (String.eqb (Handle r) "") && conflicts (handleOwner r w) r.

Definition nameTakenb (r : Role) (w : World) : bool :=
  negb (String.eqb (Name r) "") && conflicts (nameOwner r (afterHandleLookup r w)) r.

(** The outcome of the uniqueness check, the handle first. *)
Definition uniqueVerdict (r : Role) (w : World) : option error :=
  if handleTakenb r w then Some (asError ErrRoleHandleNotUnique)
  else if nameTakenb r w then Some (asError ErrRoleNameNotUnique)
  else None.

(** The world after the uniqueness check: the name is not looked up when
    the handle is already taken. *)
Definition afterUniqueCheck (r : Role) (w : World) : World :=
  if handleTakenb r w then afterHandleLookup r w
  else afterNameLookup r (afterHandleLookup r w).

(** *** The read gate of [FindByID], in the words of the specification *)

(** InvalidID for id 0, the repository's error (not-found) if the fetch
    fails, NoPermission if the fetched role is unreadable, else the role. *)
Definition gateVerdict (id : N) (w : World) : option Role * option error :=
  if id =? 0 then (None, Some (asError ErrInvalidID))
  else match fetched id w with
       | (_, Some e) => (None, Some (fromRepository e))
       | (fetchedRole, None) =>
           if CanReadRole (ac svc) (ctx svc) fetchedRole then (fetchedRole, None)
           else (None, Some (withStack ErrNoPermissions))
       end.

(** The world after the gate: one fetch, unless the id is 0. *)
Definition afterGate (id : N) (w : World) : World :=
  if id =? 0 then w else afterFetch id w.

(** Fetch, authorize with the capability [can] on the fetched role, then
    issue the repository transition [tr] (logged as [c]). *)
Definition specTransition (can : Ctx -> option Role -> bool) (c : Call Extra RF)
    (tr : method Store (option repositoryError)) (roleID : N) (w : World)
  : outcome (option error) * World :=
  match gateVerdict roleID w with
  | (_, Some e) => (Done (Some e), afterGate roleID w)
  | (fetchedRole, None) =>
      if can (ctx svc) fetchedRole
      then let (err, s) := tr (store (afterGate roleID w)) in
           (Done (lift err), after (afterGate roleID w) s c)
      else (Done (Some (withStack ErrNoPermissions)), afterGate roleID w)
  end.

(** The same with a second identifier that must not be 0, checked after
    the gate and before the capability. *)
Definition specTransition2 (can : Ctx -> option Role -> bool) (denied : error)
    (c : Call Extra RF) (tr : method Store (option repositoryError))
    (roleID secondID : N) (w : World)
  : outcome (option error) * World :=
  match gateVerdict roleID w with
  | (_, Some e) => (Done (Some e), afterGate roleID w)
  | (fetchedRole, None) =>
      if secondID =? 0 then (Done (Some (asError ErrInvalidID)), afterGate roleID w)
      else if can (ctx svc) fetchedRole
      then let (err, s) := tr (store (afterGate roleID w)) in
           (Done (lift err), after (afterGate roleID w) s c)
      else (Done (Some denied), afterGate roleID w)
  end.

(** *** The transactions of [Create] and [Update] *)

(** What a transaction begun in [w0] leaves once the write [c], issued in
    [wu], has returned [res]: the write is kept if it reports no error,
    and the store is rolled back if it does. *)
Definition persisted (w0 wu : World) (c : Call Extra RF)
    (res : (option Role * option repositoryError) * Store)
  : outcome (option Role * option error) * World :=
  let '((t, err), s) := res in
  match err with
  | None => (Done (t, None), after wu s c)
  | Some e => (Done (t, Some (fromRepository e)), rolledBack w0 (after wu s c))
  end.

(** The transaction of [Create]: the uniqueness check, then the write. *)
Definition createInTx (md : Role) (w : World)
  : outcome (option Role * option error) * World :=
  match uniqueVerdict md w with
  | Some e => (Done (None, Some e), rolledBack w (afterUniqueCheck md w))
  | None =>
      persisted w (afterUniqueCheck md w) (CallCreate md)
        (repository.Create (repo svc) md (store (afterUniqueCheck md w)))
  end.

(** [t.Name = mod.Name; t.Handle = mod.Handle] *)
Definition applyChanges (t md : Role) : Role :=
  setHandle (setName t (Name md)) (Handle md).

(** The transaction of [Update]: the fetch, the uniqueness check, the
    assignment of the two fields, then the write. *)
Definition updateInTx (md : Role) (w : World)
  : outcome (option Role * option error) * World :=
  let wf := afterFetch (ID md) w in
  let wu := afterUniqueCheck md wf in
  match fetched (ID md) w with
  | (t, Some e) => (Done (t, Some (fromRepository e)), rolledBack w wf)
  | (t, None) =>
      match uniqueVerdict md wf with
      | Some e => (Done (t, Some e), rolledBack w wu)
      | None =>
          match t with
          | None => (Panic, rolledBack w wu)
          | Some t0 =>
              persisted w wu (CallUpdate (applyChanges t0 md))
                (repository.Update (repo svc) (applyChanges t0 md) (store wu))
          end
      end
  end.

(** The error that makes the transaction of [Create] fail, if any: the
    verdict of the uniqueness check, else the error of the write. *)
Definition createTrigger (md : Role) (w : World) : option error :=
  match uniqueVerdict md w with
  | Some e => Some e
  | None =>
      lift (snd (fst (repository.Create (repo svc) md (store (afterUniqueCheck md w)))))
  end.

(** The error that makes the transaction of [Update] fail, if any: the
    error of the fetch, else the verdict of the uniqueness check, else
    the error of the write. *)
Definition updateTrigger (md : Role) (w : World) : option error :=
  let wf := afterFetch (ID md) w in
  match fetched (ID md) w with
  | (_, Some e) => Some (fromRepository e)
  | (t, None) =>
      match uniqueVerdict md wf with
      | Some e => Some e
      | None =>
          match t with
          | None => None
          | Some t0 =>
              lift (snd (fst (repository.Update (repo svc) (applyChanges t0 md)
                                (store (afterUniqueCheck md wf)))))
          end
      end
  end.

(** *** Further notions used by the statements *)

(** Modelled from the spec: [handle.IsValid] (package [handle]) is not
    among the sources; the service calls it and nothing else to validate
    a handle.  The spec says that an empty handle is rejected. *)
Definition rejectsEmpty : Prop := IsValid "" = false.

(** An existing role with the ID of [r]. *)
Definition isSelf (ex : option Role) (r : Role) : Prop :=
  exists x, ex = Some x /\ 0 < ID x /\ ID x = ID r.

(** The repository calls an operation has made when a validation or an
    authorization failure ends it: none, or the one fetch of the gate. *)
Definition gateCalls (op : operation (Extra := Extra) (RF := RF)) : list (Call Extra RF) :=
  match gateID op with
  | Some id => if id =? 0 then [] else [CallFindByID id]
  | None => []
  end.

(** The world in which such a failure leaves the operation. *)
Definition gateWorld (op : operation (Extra := Extra) (RF := RF)) (w : World) : World :=
  match gateID op with
  | Some id => afterGate id w
  | None => w
  end.

(** The contract of a repository whose single calls are atomic: a lookup
    leaves the store as it is, and so does a transition or a membership
    change that reports an error. *)
Record wellBehaved : Prop := {
  FindByID_reads : forall id s, snd (repository.FindByID (repo svc) id s) = s;
  FindByName_reads : forall n s, snd (repository.FindByName (repo svc) n s) = s;
  FindByHandle_reads : forall h s, snd (repository.FindByHandle (repo svc) h s) = s;
  Find_reads : forall f s, snd (repository.Find (repo svc) f s) = s;
  Memberships_reads : forall u s, snd (MembershipsFindByUserID (repo svc) u s) = s;
  Members_reads : forall id s, snd (MemberFindByRoleID (repo svc) id s) = s;
  Archive_atomic : forall id s e,
    fst (ArchiveByID (repo svc) id s) = Some e -> snd (ArchiveByID (repo svc) id s) = s;
  Unarchive_atomic : forall id s e,
    fst (UnarchiveByID (repo svc) id s) = Some e -> snd (UnarchiveByID (repo svc) id s) = s;
  Delete_atomic : forall id s e,
    fst (DeleteByID (repo svc) id s) = Some e -> snd (DeleteByID (repo svc) id s) = s;
  Undelete_atomic : forall id s e,
    fst (UndeleteByID (repo svc) id s) = Some e -> snd (UndeleteByID (repo svc) id s) = s;
  Merge_atomic : forall id t s e,
    fst (MergeByID (repo svc) id t s) = Some e -> snd (MergeByID (repo svc) id t s) = s;
  Move_atomic : forall id t s e,
    fst (MoveByID (repo svc) id t s) = Some e -> snd (MoveByID (repo svc) id t s) = s;
  MemberAdd_atomic : forall id u s e,
    fst (MemberAddByID (repo svc) id u s) = Some e ->
    snd (MemberAddByID (repo svc) id u s) = s;
  MemberRemove_atomic : forall id u s e,
    fst (MemberRemoveByID (repo svc) id u s) = Some e ->
    snd (MemberRemoveByID (repo svc) id u s) = s
}.

(** *** Notions for the further properties *)

(** A list of repository calls that only look things up. *)
Definition onlyLookups (l : list (Call Extra RF)) : Prop :=
  forallb (@isLookup Extra RF) l = true.

(** The capability that authorizes an operation that changes an existing
    role or its members. *)
Definition capability (op : operation (Extra := Extra) (RF := RF))
  : option (Ctx -> option Role -> bool) :=
  match op with
  | OpDelete _ | OpUndelete _ => Some (CanDeleteRole (ac svc))
  | OpArchive _ | OpUnarchive _ | OpMerge _ _ | OpMove _ _ => Some (CanUpdateRole (ac svc))
  | OpMemberAdd _ _ | OpMemberRemove _ _ => Some (CanManageRoleMembers (ac svc))
  | _ => None
  end.

(** The repository primitive such an operation ends with, and its entry
    in the log. *)
Definition primitive (op : operation (Extra := Extra) (RF := RF))
  : option (Call Extra RF * method Store (option repositoryError)) :=
  match op with
  | OpDelete id => Some (CallDeleteByID id, DeleteByID (repo svc) id)
  | OpUndelete id => Some (CallUndeleteByID id, UndeleteByID (repo svc) id)
  | OpArchive id => Some (CallArchiveByID id, ArchiveByID (repo svc) id)
  | OpUnarchive id => Some (CallUnarchiveByID id, UnarchiveByID (repo svc) id)
  | OpMerge id t => Some (CallMergeByID id t, MergeByID (repo svc) id t)
  | OpMove id t => Some (CallMoveByID id t, MoveByID (repo svc) id t)
  | OpMemberAdd id u => Some (CallMemberAddByID id u, MemberAddByID (repo svc) id u)
  | OpMemberRemove id u => Some (CallMemberRemoveByID id u, MemberRemoveByID (repo svc) id u)
  | _ => None
  end.

(** The error such an operation returns when the capability is missing. *)
Definition denial (op : operation (Extra := Extra) (RF := RF)) : error :=
  match op with
  | OpMemberAdd _ _ | OpMemberRemove _ _ => errorsNew "Not allowed to manage role members"
  | _ => withStack ErrNoPermissions
  end.

(** The second identifier of an operation, or 1 when it takes only one. *)
Definition secondOr1 (op : operation (Extra := Extra) (RF := RF)) : N :=
  match secondID op with
  | Some id => id
  | None => 1
  end.

(** The operations that only read. *)
Definition isQuery (op : operation (Extra := Extra) (RF := RF)) : bool :=
  match op with
  | OpFindByID _ | OpFindByName _ | OpFindByHandle _ | OpFind _
  | OpMembership _ | OpMemberList _ => true
  | _ => false
  end.

(** [c] is the write of [op] started in [w]: its own primitive, with its
    own arguments. *)
Definition ownWrite (op : operation (Extra := Extra) (RF := RF)) (w : World)
    (c : Call Extra RF) : Prop :=
  match op with
  | OpCreate md => c = CallCreate md
  | OpUpdate md =>
      exists t, fetched (ID md) w = (Some t, None) /\ c = CallUpdate (applyChanges t md)
  | _ => exists tr, primitive op = Some (c, tr)
  end.

Definition isKind (k : serviceError) (ks : list serviceError) : bool :=
  existsb (String.eqb k) ks.

(** The errors each operation can report. *)
Definition mayReport (op : operation (Extra := Extra) (RF := RF)) (e : error) : bool :=
  match e with
  | fromRepository _ => true
  | asError k =>
      isKind k
        match op with
        | OpCreate _ => [ErrInvalidHandle; ErrRoleHandleNotUnique; ErrRoleNameNotUnique]
        | OpUpdate _ =>
            [ErrInvalidID; ErrInvalidHandle; ErrRoleHandleNotUnique; ErrRoleNameNotUnique]
        | OpFindByName _ | OpFindByHandle _ | OpFind _ | OpMembership _ => []
        | _ => [ErrInvalidID]
        end
  | withStack k =>
      isKind k
        match op with
        | OpCreate _ => [ErrNoCreatePermissions]
        | OpUpdate _ => [ErrNoUpdatePermissions]
        | OpFindByName _ | OpFindByHandle _ | OpMembership _ => []
        | _ => [ErrNoPermissions]
        end
  | errorsNew msg =>
      match op with
      | OpMemberAdd _ _ | OpMemberRemove _ _ =>
          String.eqb msg "Not allowed to manage role members"
      | _ => false
      end
  end.

(** The log grew from [w] to [w'] by lookups followed by at most one
    other call, which then satisfies [P]. *)
Definition oneWrite (w w' : World) (P : Call Extra RF -> Prop) : Prop :=
  exists l, calls w' = calls w ++ l /\
    (onlyLookups l \/ exists l0 c, l = l0 ++ [c] /\ onlyLookups l0 /\ P c).

(** *** Shared lemmas *)

Lemma conflicts_isOther (ex : option Role) (r : Role) :
  conflicts ex r = true <-> isOther ex r.
Proof.
  unfold conflicts, isOther. split.
  - destruct ex as [x|]; [|discriminate].
    intros H. apply andb_true_iff in H. destruct H as [H1 H2].
    exists x. split; [reflexivity|]. split.
    + now apply N.ltb_lt.
    + apply negb_true_iff in H2. now apply N.eqb_neq.
  - intros (x & -> & H1 & H2). apply andb_true_iff. split.
    + now apply N.ltb_lt.
    + apply negb_true_iff. now apply N.eqb_neq.
Qed.

Lemma handleTakenb_spec (r : Role) (w : World) :
  handleTakenb r w = true <-> handleTaken r w.
Proof.
  unfold handleTakenb, handleTaken.
  rewrite andb_true_iff, negb_true_iff, conflicts_isOther.
  now rewrite String.eqb_neq.
Qed.

Lemma nameTakenb_spec (r : Role) (w : World) :
  nameTakenb r w = true <-> nameTaken r w.
Proof.
  unfold nameTakenb, nameTaken.
  rewrite andb_true_iff, negb_true_iff, conflicts_isOther.
  now rewrite String.eqb_neq.
Qed.

Lemma uniqueName_run (r : Role) (w0 w : World) :
  afterHandleLookup r w0 = w ->
  uniqueName svc r w =
    (Done (if nameTakenb r w0 then Some (asError ErrRoleNameNotUnique) else None),
     afterNameLookup r w).
Proof.
  intros <-. unfold uniqueName, nameTakenb, afterNameLookup, nameOwner.
  destruct (String.eqb (Name r) ""); simpl; [reflexivity|].
  unfold bind, invoke, ret, after.
  destruct (repository.FindByName (repo svc) (Name r) (store (afterHandleLookup r w0)))
    as [[ex e] s]; simpl.
  destruct (conflicts ex r); reflexivity.
Qed.

(** [UniqueCheck] always returns, with the verdict and in the world
    described above. *)
Lemma UniqueCheck_run (r : Role) (w : World) :
  UniqueCheck svc r w = (Done (uniqueVerdict r w), afterUniqueCheck r w).
Proof.
  unfold UniqueCheck, uniqueVerdict, afterUniqueCheck, handleTakenb.
  case_eq (String.eqb (Handle r) ""); intros Hh; simpl.
  - assert (Hw : afterHandleLookup r w = w).
    { unfold afterHandleLookup. now rewrite Hh. }
    rewrite (uniqueName_run r w w Hw), Hw.
    destruct (nameTakenb r w); reflexivity.
  - unfold bind at 1. unfold invoke at 1. unfold handleOwner.
    case_eq (repository.FindByHandle (repo svc) (Handle r) (store w)).
    intros [ex e] s Hl; simpl.
    assert (Hw : afterHandleLookup r w =
                 {| store := s; calls := calls w ++ [CallFindByHandle (Handle r)] |}).
    { unfold afterHandleLookup, after. now rewrite Hh, Hl. }
    destruct (conflicts ex r).
    + unfold ret. now rewrite Hw.
    + rewrite (uniqueName_run r w _ Hw).
      rewrite Hw. destruct (nameTakenb r w); reflexivity.
Qed.

Lemma findByID_run (id : N) (w : World) :
  findByID svc id w = (Done (gateVerdict id w), afterGate id w).
Proof.
  unfold findByID, gateVerdict, afterGate, fetched, afterFetch, after.
  destruct (id =? 0); [reflexivity|].
  unfold bind, invoke, ret.
  destruct (repository.FindByID (repo svc) id (store w)) as [[r e] s]; simpl.
  destruct e; [reflexivity|].
  destruct (CanReadRole (ac svc) (ctx svc) r); reflexivity.
Qed.

Lemma Find_run (f : RoleFilter RF) (w : World) :
  Find svc f w =
    let f' := setIsReadable f (FilterReadableRoles (ac svc) (ctx svc)) in
    if (0 <? Deleted f) && negb (CanAccess (ac svc) (ctx svc))
    then (Done ([], f', Some (withStack ErrNoPermissions)), w)
    else
      let '((set, fr, err), s) := repository.Find (repo svc) f' (store w) in
      (Done (set, fr, lift err), after w s (CallFind f')).
Proof.
  unfold Find. cbv zeta.
  assert (Hd : Deleted (setIsReadable f (FilterReadableRoles (ac svc) (ctx svc))) = Deleted f)
    by reflexivity.
  rewrite Hd. unfold bind, invoke, ret, after.
  destruct (0 <? Deleted f); [destruct (CanAccess (ac svc) (ctx svc))|]; simpl;
    try reflexivity;
    destruct (repository.Find (repo svc) _ (store w)) as [[[set fr] err] s];
    reflexivity.
Qed.

Lemma Create_run (md : Role) (w : World) :
  Create IsValid svc md w =
    if negb (IsValid (Handle md))
    then (Done (None, Some (asError ErrInvalidHandle)), w)
    else if negb (CanCreateRole (ac svc) (ctx svc))
    then (Done (None, Some (withStack ErrNoCreatePermissions)), w)
    else createInTx md w.
Proof.
  unfold Create.
  destruct (negb (IsValid (Handle md))); [reflexivity|].
  destruct (negb (CanCreateRole (ac svc) (ctx svc))); [reflexivity|].
  unfold Transaction, bind, createInTx. rewrite UniqueCheck_run.
  destruct (uniqueVerdict md w); [reflexivity|].
  unfold invoke, ret, persisted, rolledBack, after.
  destruct (repository.Create (repo svc) md (store (afterUniqueCheck md w)))
    as [[t e] s]; simpl.
  destruct e; reflexivity.
Qed.

Lemma Update_run (md : Role) (w : World) :
  Update IsValid svc md w =
    if ID md =? 0 then (Done (None, Some (asError ErrInvalidID)), w)
    else if negb (IsValid (Handle md))
    then (Done (None, Some (asError ErrInvalidHandle)), w)
    else if negb (CanUpdateRole (ac svc) (ctx svc) (Some md))
    then (Done (None, Some (withStack ErrNoUpdatePermissions)), w)
    else updateInTx md w.
Proof.
  unfold Update.
  destruct (ID md =? 0); [reflexivity|].
  destruct (negb (IsValid (Handle md))); [reflexivity|].
  destruct (negb (CanUpdateRole (ac svc) (ctx svc) (Some md))); [reflexivity|].
  unfold Transaction, updateInTx, fetched, afterFetch.
  unfold bind at 1. unfold invoke at 1.
  destruct (repository.FindByID (repo svc) (ID md) (store w)) as [[t e] s]; simpl.
  destruct e; [reflexivity|].
  unfold bind. rewrite UniqueCheck_run. unfold after.
  destruct (uniqueVerdict md _); [reflexivity|].
  destruct t as [t0|]; [|reflexivity].
  unfold invoke, ret, persisted, rolledBack, after, applyChanges.
  destruct (repository.Update (repo svc) _ _) as [[t' e] s']; simpl.
  destruct e; reflexivity.
Qed.

(** Unfold an operation that starts with [findByID] down to its gate. *)
Ltac through_gate :=
  unfold specTransition, specTransition2, bind; rewrite findByID_run;
  destruct (gateVerdict _ _) as [fetchedRole [e|]]; [reflexivity|];
  repeat match goal with
         | |- context [if ?b =? 0 then _ else _] => destruct (b =? 0); [reflexivity|]
         | |- context [negb ?b] => destruct b; simpl; [|reflexivity]
         end;
  unfold invoke, ret, after;
  match goal with
  | |- context [let (_, _) := ?m in _] => destruct m; reflexivity
  end.

Lemma Delete_run (id : N) (w : World) :
  Delete svc id w =
    specTransition (CanDeleteRole (ac svc)) (CallDeleteByID id) (DeleteByID (repo svc) id) id w.
Proof. unfold Delete. through_gate. Qed.

Lemma Undelete_run (id : N) (w : World) :
  Undelete svc id w =
    specTransition (CanDeleteRole (ac svc)) (CallUndeleteByID id)
      (UndeleteByID (repo svc) id) id w.
Proof. unfold Undelete. through_gate. Qed.

Lemma Archive_run (id : N) (w : World) :
  Archive svc id w =
    specTransition (CanUpdateRole (ac svc)) (CallArchiveByID id)
      (ArchiveByID (repo svc) id) id w.
Proof. unfold Archive. through_gate. Qed.

Lemma Unarchive_run (id : N) (w : World) :
  Unarchive svc id w =
    specTransition (CanUpdateRole (ac svc)) (CallUnarchiveByID id)
      (UnarchiveByID (repo svc) id) id w.
Proof. unfold Unarchive. through_gate. Qed.

Lemma Merge_run (id target : N) (w : World) :
  Merge svc id target w =
    specTransition2 (CanUpdateRole (ac svc)) (withStack ErrNoPermissions)
      (CallMergeByID id target) (MergeByID (repo svc) id target) id target w.
Proof. unfold Merge. through_gate. Qed.

Lemma Move_run (id target : N) (w : World) :
  Move svc id target w =
    specTransition2 (CanUpdateRole (ac svc)) (withStack ErrNoPermissions)
      (CallMoveByID id target) (MoveByID (repo svc) id target) id target w.
Proof. unfold Move. through_gate. Qed.

Lemma MemberAdd_run (id userID : N) (w : World) :
  MemberAdd svc id userID w =
    specTransition2 (CanManageRoleMembers (ac svc))
      (errorsNew "Not allowed to manage role members")
      (CallMemberAddByID id userID) (MemberAddByID (repo svc) id userID) id userID w.
Proof. unfold MemberAdd. through_gate. Qed.

Lemma MemberRemove_run (id userID : N) (w : World) :
  MemberRemove svc id userID w =
    specTransition2 (CanManageRoleMembers (ac svc))
      (errorsNew "Not allowed to manage role members")
      (CallMemberRemoveByID id userID) (MemberRemoveByID (repo svc) id userID) id userID w.
Proof. unfold MemberRemove. through_gate. Qed.

Lemma MemberList_run (id : N) (w : World) :
  MemberList svc id w =
    match gateVerdict id w with
    | (_, Some e) => (Done ([], Some e), afterGate id w)
    | (_, None) =>
        let '((mm, err), s) := MemberFindByRoleID (repo svc) id (store (afterGate id w)) in
        (Done (mm, lift err), after (afterGate id w) s (CallMemberFindByRoleID id))
    end.
Proof.
  unfold MemberList, bind. rewrite findByID_run.
  destruct (gateVerdict id w) as [fetchedRole [e|]]; [reflexivity|].
  unfold invoke, ret, after.
  destruct (MemberFindByRoleID (repo svc) id (store (afterGate id w))) as [[mm err] s].
  reflexivity.
Qed.

(** A non-zero second identifier leaves the plain
    fetch-authorize-transition pattern. *)
Lemma specTransition2_nonzero (can : Ctx -> option Role -> bool) (c : Call Extra RF)
    (tr : method Store (option repositoryError)) (id second : N) (w : World) :
  second <> 0 ->
  specTransition2 can (withStack ErrNoPermissions) c tr id second w =
    specTransition can c tr id w.
Proof.
  intros H. unfold specTransition2, specTransition.
  apply N.eqb_neq in H. rewrite H. reflexivity.
Qed.

(** The gate lets through the fetched role only: a non-zero id, a fetch
    without error, and a role the caller can read. *)
Lemma gateVerdict_passes (id : N) (w : World) (r : option Role) :
  gateVerdict id w = (r, None) ->
  id <> 0 /\ fetched id w = (r, None) /\ CanReadRole (ac svc) (ctx svc) r = true.
Proof.
  unfold gateVerdict. case_eq (id =? 0); intros Hid; [discriminate|].
  apply N.eqb_neq in Hid.
  destruct (fetched id w) as [fr [e|]]; [discriminate|].
  case_eq (CanReadRole (ac svc) (ctx svc) fr); intros Hc; [|discriminate].
  intros H. inversion H; subst. auto.
Qed.

(** Between its two ends, the uniqueness check only looks roles up. *)
Lemma afterUniqueCheck_calls (r : Role) (w : World) :
  exists l, calls (afterUniqueCheck r w) = calls w ++ l /\ forallb (@isLookup Extra RF) l = true.
Proof.
  unfold afterUniqueCheck, afterNameLookup, afterHandleLookup, after.
  destruct (handleTakenb r w); destruct (String.eqb (Handle r) "");
    try destruct (String.eqb (Name r) ""); simpl;
    try (exists []; rewrite app_nil_r; split; reflexivity);
    try (eexists [_]; split; reflexivity).
  exists [CallFindByHandle (Handle r); CallFindByName (Name r)].
  rewrite <- app_assoc. split; reflexivity.
Qed.

(* ------------------------------------------------------------------ *)
(** *** Find *)

(** C2.  When the filter asks for deleted or archived roles
    ([Deleted > 0]) and the caller lacks the coarse [CanAccess]
    capability, [Find] fails with NoPermission without calling the
    repository, whatever the per-role read permissions are.  Otherwise
    [Find] delegates to the repository with the filter in which
    [IsReadable] is the caller's read-visibility predicate, and returns
    the repository's set and filter. *)
Theorem Find_visibility_gate (f : RoleFilter RF) (w : World) :
  let f' := setIsReadable f (FilterReadableRoles (ac svc) (ctx svc)) in
  (0 < Deleted f -> CanAccess (ac svc) (ctx svc) = false ->
     Find svc f w = (Done ([], f', Some (withStack ErrNoPermissions)), w)) /\
  (Deleted f = 0 \/ CanAccess (ac svc) (ctx svc) = true ->
     Find svc f w =
       let '((set, fr, err), s) := repository.Find (repo svc) f' (store w) in
       (Done (set, fr, lift err), after w s (CallFind f'))).
Proof.
  intros f'. rewrite Find_run. fold f'. split.
  - intros Hlt Hacc. apply N.ltb_lt in Hlt. rewrite Hlt, Hacc. reflexivity.
  - intros H.
    assert (Hg : (0 <? Deleted f) && negb (CanAccess (ac svc) (ctx svc)) = false).
    { destruct H as [H|H]; rewrite H; [reflexivity|]. apply andb_false_r. }
    rewrite Hg. reflexivity.
Qed.

(* ------------------------------------------------------------------ *)
(** *** Create *)

(** C3.  [Create] fails with InvalidHandle when the validity predicate
    rejects the handle; otherwise with NoCreatePermission when the caller
    lacks the create capability; in both cases nothing else happens.
    Otherwise, in one transaction, the handle is checked (failing with
    RoleHandleNotUnique), then the name (failing with RoleNameNotUnique),
    and only when both pass is the role handed to the repository's
    [Create], as the last call; a failure rolls the store back. *)
Theorem Create_order (md : Role) (w : World) :
  (IsValid (Handle md) = false ->
     Create IsValid svc md w = (Done (None, Some (asError ErrInvalidHandle)), w)) /\
  (IsValid (Handle md) = true -> CanCreateRole (ac svc) (ctx svc) = false ->
     Create IsValid svc md w = (Done (None, Some (withStack ErrNoCreatePermissions)), w)) /\
  (IsValid (Handle md) = true -> CanCreateRole (ac svc) (ctx svc) = true ->
     (handleTaken md w ->
        Create IsValid svc md w =
          (Done (None, Some (asError ErrRoleHandleNotUnique)),
           rolledBack w (afterHandleLookup md w))) /\
     (~ handleTaken md w -> nameTaken md w ->
        Create IsValid svc md w =
          (Done (None, Some (asError ErrRoleNameNotUnique)),
           rolledBack w (afterNameLookup md (afterHandleLookup md w)))) /\
     (~ handleTaken md w -> ~ nameTaken md w ->
        let wu := afterNameLookup md (afterHandleLookup md w) in
        Create IsValid svc md w =
          persisted w wu (CallCreate md) (repository.Create (repo svc) md (store wu)))).
Proof.
  rewrite Create_run. split; [|split].
  - intros ->. reflexivity.
  - intros -> ->. reflexivity.
  - intros -> ->. simpl. unfold createInTx, uniqueVerdict, afterUniqueCheck.
    rewrite <- handleTakenb_spec, <- nameTakenb_spec.
    destruct (handleTakenb md w); destruct (nameTakenb md w);
      repeat split; intros; try reflexivity; try congruence;
      exfalso; auto.
Qed.

(** C9.  With a validity predicate that rejects the empty handle, a role
    whose handle is empty or fails the predicate makes [Create] fail with
    InvalidHandle; the store and the log of repository calls are left as
    they were, so nothing is written. *)
Theorem Create_rejects_invalid_handle (md : Role) (w : World) :
  rejectsEmpty ->
  Handle md = "" \/ IsValid (Handle md) = false ->
  Create IsValid svc md w = (Done (None, Some (asError ErrInvalidHandle)), w).
Proof.
  intros Hempty H.
  assert (Hv : IsValid (Handle md) = false).
  { destruct H as [H|H]; [rewrite H; exact Hempty | exact H]. }
  rewrite Create_run, Hv. reflexivity.
Qed.

Lemma isSelf_not_other (ex : option Role) (r : Role) :
  isSelf ex r -> ~ isOther ex r.
Proof.
  intros (x & Hx & _ & Heq) (y & Hy & _ & Hneq).
  rewrite Hx in Hy. inversion Hy; subst. contradiction.
Qed.

(** C10.  [Create] neither requires nor resets a zero ID.  When the
    payload carries the ID of the existing role that owns its non-empty
    handle (the name raising no conflict), or of the one that owns its
    non-empty name (the handle raising no conflict), the uniqueness check
    passes, and the payload, with that ID, is handed to the repository's
    [Create]. *)
Theorem Create_self_exclusion (md : Role) (w : World) :
  IsValid (Handle md) = true ->
  CanCreateRole (ac svc) (ctx svc) = true ->
  (Handle md <> "" /\ isSelf (handleOwner md w) md /\ ~ nameTaken md w) \/
  (Name md <> "" /\ isSelf (nameOwner md (afterHandleLookup md w)) md /\ ~ handleTaken md w) ->
  let wu := afterNameLookup md (afterHandleLookup md w) in
  UniqueCheck svc md w = (Done None, wu) /\
  Create IsValid svc md w =
    persisted w wu (CallCreate md) (repository.Create (repo svc) md (store wu)).
Proof.
  intros Hv Hc H wu.
  assert (Hh : handleTakenb md w = false).
  { apply not_true_is_false. rewrite handleTakenb_spec.
    destruct H as [(_ & Hs & _)|(_ & _ & Hn)]; [|exact Hn].
    intros [_ Ho]. exact (isSelf_not_other _ _ Hs Ho). }
  assert (Hn : nameTakenb md w = false).
  { apply not_true_is_false. rewrite nameTakenb_spec.
    destruct H as [(_ & _ & Hn)|(_ & Hs & _)]; [exact Hn|].
    intros [_ Ho]. exact (isSelf_not_other _ _ Hs Ho). }
  rewrite UniqueCheck_run, Create_run, Hv, Hc. simpl.
  unfold createInTx, uniqueVerdict, afterUniqueCheck. rewrite Hh, Hn.
  split; reflexivity.
Qed.

(* ------------------------------------------------------------------ *)
(** *** UniqueCheck *)

(** C4.  [UniqueCheck] always returns.  It fails with RoleHandleNotUnique
    exactly when the handle is non-empty and the lookup returns a role
    with a non-zero ID different from the ID of [r]; with
    RoleNameNotUnique exactly when the handle raises no conflict, the
    name is non-empty and its lookup returns such a role; and it passes
    in every other case.  The error of a lookup is discarded: a lookup
    that fails and returns no role raises no conflict, and no repository
    error is ever returned.  A role with the ID of [r] is never a
    conflict. *)
Theorem UniqueCheck_verdict (r : Role) (w : World) :
  exists res w',
    UniqueCheck svc r w = (Done res, w') /\
    (res = Some (asError ErrRoleHandleNotUnique) <->
       Handle r <> "" /\
       exists ex, handleOwner r w = Some ex /\ 0 < ID ex /\ ID ex <> ID r) /\
    (res = Some (asError ErrRoleNameNotUnique) <->
       ~ handleTaken r w /\ Name r <> "" /\
       exists ex, nameOwner r (afterHandleLookup r w) = Some ex /\
                  0 < ID ex /\ ID ex <> ID r) /\
    (res = None <-> ~ handleTaken r w /\ ~ nameTaken r w) /\
    (forall e, fst (repository.FindByHandle (repo svc) (Handle r) (store w)) = (None, Some e) ->
               res <> Some (asError ErrRoleHandleNotUnique)) /\
    (forall e, fst (repository.FindByName (repo svc) (Name r)
                      (store (afterHandleLookup r w))) = (None, Some e) ->
               res <> Some (asError ErrRoleNameNotUnique)) /\
    (forall e, res <> Some (fromRepository e)) /\
    (forall ex, handleOwner r w = Some ex -> ID ex = ID r ->
                res <> Some (asError ErrRoleHandleNotUnique)) /\
    (forall ex, nameOwner r (afterHandleLookup r w) = Some ex -> ID ex = ID r ->
                res <> Some (asError ErrRoleNameNotUnique)).
Proof.
  exists (uniqueVerdict r w), (afterUniqueCheck r w).
  split; [apply UniqueCheck_run|].
  assert (Hh := handleTakenb_spec r w). assert (Hn := nameTakenb_spec r w).
  assert (A : uniqueVerdict r w = Some (asError ErrRoleHandleNotUnique) <-> handleTaken r w).
  { unfold uniqueVerdict. destruct (handleTakenb r w).
    - split; [intros _; now apply Hh | reflexivity].
    - split; [|intros H; apply Hh in H; discriminate].
      destruct (nameTakenb r w); discriminate. }
  assert (B : uniqueVerdict r w = Some (asError ErrRoleNameNotUnique) <->
              ~ handleTaken r w /\ nameTaken r w).
  { unfold uniqueVerdict. destruct (handleTakenb r w).
    - split; [discriminate|]. intros [H _]. exfalso. apply H. now apply Hh.
    - destruct (nameTakenb r w).
      + split; [|reflexivity]. intros _. split; [|now apply Hn].
        intros H. apply Hh in H. discriminate.
      + split; [discriminate|]. intros [_ H]. apply Hn in H. discriminate. }
  assert (C : uniqueVerdict r w = None <-> ~ handleTaken r w /\ ~ nameTaken r w).
  { unfold uniqueVerdict. destruct (handleTakenb r w).
    - split; [discriminate|]. intros [H _]. exfalso. apply H. now apply Hh.
    - destruct (nameTakenb r w).
      + split; [discriminate|]. intros [_ H]. exfalso. apply H. now apply Hn.
      + split; [|reflexivity]. intros _.
        split; intros H; [apply Hh in H | apply Hn in H]; discriminate. }
  repeat split.
  - apply A in H. apply H.
  - apply A in H. destruct H as [_ (x & Hx)]. exists x. exact Hx.
  - intros [H1 (x & Hx)]. apply A. split; [exact H1|]. exists x. exact Hx.
  - apply B in H. apply H.
  - apply B in H. apply H.
  - apply B in H. destruct H as [_ [_ (x & Hx)]]. exists x. exact Hx.
  - intros (H1 & H2 & x & Hx). apply B. split; [exact H1|].
    split; [exact H2|]. exists x. exact Hx.
  - apply C in H. apply H.
  - apply C in H. apply H.
  - intros [H1 H2]. apply C. split; assumption.
  - intros e He H. apply A in H. destruct H as [_ (x & Hx & _)].
    unfold handleOwner in Hx. rewrite He in Hx. discriminate.
  - intros e He H. apply B in H. destruct H as [_ [_ (x & Hx & _)]].
    unfold nameOwner in Hx. rewrite He in Hx. discriminate.
  - intros e H. unfold uniqueVerdict in H.
    destruct (handleTakenb r w); [discriminate|].
    destruct (nameTakenb r w); discriminate.
  - intros ex Hex Hid H. apply A in H. destruct H as [_ (x & Hx & _ & Hne)].
    rewrite Hex in Hx. inversion Hx; subst. contradiction.
  - intros ex Hex Hid H. apply B in H. destruct H as [_ [_ (x & Hx & _ & Hne)]].
    rewrite Hex in Hx. inversion Hx; subst. contradiction.
Qed.

(* ------------------------------------------------------------------ *)
(** *** Update *)

(** C6.  When [Update] succeeds, the role handed to the repository's
    [Update] is the role fetched inside the transaction with its [Name]
    and [Handle] replaced by those of the payload; its ID, its lifecycle
    flags and every remaining field are those of the fetched role.  That
    write is the last repository call, the calls before it are lookups,
    and the store and the returned role are what that write produced. *)
Theorem Update_only_name_and_handle
    (md : Role) (w : World) (r : option Role) (w' : World) :
  Update IsValid svc md w = (Done (r, None), w') ->
  exists t l,
    fetched (ID md) w = (Some t, None) /\
    let t' := applyChanges t md in
    let wu := afterUniqueCheck md (afterFetch (ID md) w) in
    Name t' = Name md /\ Handle t' = Handle md /\
    ID t' = ID t /\ ArchivedAt t' = ArchivedAt t /\ DeletedAt t' = DeletedAt t /\
    Rest t' = Rest t /\
    repository.Update (repo svc) t' (store wu) = ((r, None), store w') /\
    calls w' = calls w ++ l ++ [CallUpdate t'] /\
    forallb (@isLookup Extra RF) l = true.
Proof.
  rewrite Update_run.
  destruct (ID md =? 0); [discriminate|].
  destruct (negb (IsValid (Handle md))); [discriminate|].
  destruct (negb (CanUpdateRole (ac svc) (ctx svc) (Some md))); [discriminate|].
  unfold updateInTx.
  destruct (fetched (ID md) w) as [t [e|]]; [discriminate|].
  destruct (uniqueVerdict md (afterFetch (ID md) w)); [discriminate|].
  destruct t as [t0|]; [|discriminate].
  unfold persisted.
  case_eq (repository.Update (repo svc) (applyChanges t0 md)
             (store (afterUniqueCheck md (afterFetch (ID md) w)))).
  intros [r' e] s Hu. destruct e; [discriminate|].
  intros H. inversion H; subst r' w'. clear H.
  destruct (afterUniqueCheck_calls md (afterFetch (ID md) w)) as (l & Hl & Hlook).
  exists t0, (CallFindByID (ID md) :: l).
  split; [reflexivity|]. simpl.
  repeat split; try assumption.
  unfold after; simpl. rewrite Hl. unfold afterFetch, after; simpl.
  rewrite <- !app_assoc. reflexivity.
Qed.

(* ------------------------------------------------------------------ *)
(** *** State transitions *)

(** C7.  [Delete] and [Undelete] with the delete capability, [Archive],
    [Unarchive], [Merge] and [Move] (given a non-zero target) with the
    update capability, all follow the fetch-authorize-transition pattern
    [specTransition]: the gate of [FindByID] comes first (InvalidID for
    id 0, the repository's error, NoPermission if unreadable) and ends
    the operation if it fails; the capability is then evaluated on the
    role the gate let through, which is the role the repository returned;
    the transition is issued only after both.  With a zero target,
    [Merge] and [Move] stop after the gate and issue no transition. *)
Theorem transitions_fetch_authorize_transition :
  (forall id w, FindByID svc id w = (Done (gateVerdict id w), afterGate id w)) /\
  (forall id w r, gateVerdict id w = (r, None) ->
     id <> 0 /\ fetched id w = (r, None) /\ CanReadRole (ac svc) (ctx svc) r = true) /\
  (forall id w,
     Delete svc id w =
       specTransition (CanDeleteRole (ac svc)) (CallDeleteByID id)
         (DeleteByID (repo svc) id) id w) /\
  (forall id w,
     Undelete svc id w =
       specTransition (CanDeleteRole (ac svc)) (CallUndeleteByID id)
         (UndeleteByID (repo svc) id) id w) /\
  (forall id w,
     Archive svc id w =
       specTransition (CanUpdateRole (ac svc)) (CallArchiveByID id)
         (ArchiveByID (repo svc) id) id w) /\
  (forall id w,
     Unarchive svc id w =
       specTransition (CanUpdateRole (ac svc)) (CallUnarchiveByID id)
         (UnarchiveByID (repo svc) id) id w) /\
  (forall id target w, target <> 0 ->
     Merge svc id target w =
       specTransition (CanUpdateRole (ac svc)) (CallMergeByID id target)
         (MergeByID (repo svc) id target) id w) /\
  (forall id target w, target <> 0 ->
     Move svc id target w =
       specTransition (CanUpdateRole (ac svc)) (CallMoveByID id target)
         (MoveByID (repo svc) id target) id w) /\
  (forall id w,
     Merge svc id 0 w = Move svc id 0 w /\
     exists e, Merge svc id 0 w = (Done (Some e), afterGate id w)).
Proof.
  split; [intros; apply findByID_run|].
  split; [intros id w r H; exact (gateVerdict_passes id w r H)|].
  split; [intros; apply Delete_run|].
  split; [intros; apply Undelete_run|].
  split; [intros; apply Archive_run|].
  split; [intros; apply Unarchive_run|].
  split; [intros; rewrite Merge_run; now apply specTransition2_nonzero|].
  split; [intros; rewrite Move_run; now apply specTransition2_nonzero|].
  intros id w. rewrite Merge_run, Move_run. unfold specTransition2.
  destruct (gateVerdict id w) as [r [e|]]; simpl;
    (split; [reflexivity | eexists; reflexivity]).
Qed.

(* ------------------------------------------------------------------ *)
(** *** Identifier arguments *)

(** C8, as amended.  A zero role identifier is rejected with InvalidID,
    before any repository call, by every operation that starts with the
    gate of [FindByID], and so is a payload with a zero ID by [Update].
    A zero target of [Merge] and [Move] and a zero user of [MemberAdd]
    and [MemberRemove] are rejected with InvalidID once the role has
    passed the gate.  [Membership] checks nothing: it hands its user
    identifier, zero included, to the repository and returns what the
    repository returns. *)
Theorem zero_identifiers (w : World) :
  (forall op, gateID op = Some 0 ->
     errorOf IsValid svc op w = (Done (Some (asError ErrInvalidID)), w)) /\
  (forall md, ID md = 0 ->
     Update IsValid svc md w = (Done (None, Some (asError ErrInvalidID)), w)) /\
  (forall op id r, gateID op = Some id -> secondID op = Some 0 ->
     gateVerdict id w = (r, None) ->
     errorOf IsValid svc op w = (Done (Some (asError ErrInvalidID)), afterGate id w)) /\
  (forall userID,
     Membership svc userID w =
       let '((mm, err), s) := MembershipsFindByUserID (repo svc) userID (store w) in
       (Done (mm, lift err), after w s (CallMembershipsFindByUserID userID))).
Proof.
  split; [|split; [|split]].
  - intros op H. destruct op; simpl in H; try discriminate;
      inversion H; subst; simpl; unfold errOnly, bind, FindByID;
      rewrite ?findByID_run, ?Merge_run, ?Move_run, ?Archive_run, ?Unarchive_run,
        ?Delete_run, ?Undelete_run, ?MemberList_run, ?MemberAdd_run, ?MemberRemove_run;
      reflexivity.
  - intros md H. rewrite Update_run, H. reflexivity.
  - intros op id r H1 H2 Hg. destruct op; simpl in H1, H2; try discriminate;
      inversion H1; inversion H2; subst; simpl;
      rewrite ?Merge_run, ?Move_run, ?MemberAdd_run, ?MemberRemove_run;
      unfold specTransition2; rewrite Hg; reflexivity.
  - intros userID. unfold Membership, bind, invoke, ret, after.
    destruct (MembershipsFindByUserID (repo svc) userID (store w)) as [[mm err] s].
    reflexivity.
Qed.

(* ------------------------------------------------------------------ *)
(** *** Failures and the repository *)

Lemma lift_not_validation (err : option repositoryError) (e : error) :
  lift err = Some e -> isValidationOrAuthorization e = false.
Proof. destruct err; simpl; intros H; inversion H; reflexivity. Qed.

Lemma uniqueVerdict_not_validation (r : Role) (w : World) (e : error) :
  uniqueVerdict r w = Some e -> isValidationOrAuthorization e = false.
Proof.
  unfold uniqueVerdict.
  destruct (handleTakenb r w); [intros H; inversion H; reflexivity|].
  destruct (nameTakenb r w); intros H; inversion H; reflexivity.
Qed.

Lemma persisted_error (w0 wu : World) (c : Call Extra RF)
    (res : (option Role * option repositoryError) * Store)
    (t : option Role) (e : error) (w' : World) :
  persisted w0 wu c res = (Done (t, Some e), w') ->
  isValidationOrAuthorization e = false /\ store w' = store w0 /\
  lift (snd (fst res)) = Some e.
Proof.
  unfold persisted. destruct res as [[t0 [e0|]] s]; intros H; inversion H; subst.
  repeat split.
Qed.

Lemma specTransition2_validation (can : Ctx -> option Role -> bool) (denied : error)
    (c : Call Extra RF) (tr : method Store (option repositoryError))
    (id second : N) (w : World) (e : error) (w' : World) :
  specTransition2 can denied c tr id second w = (Done (Some e), w') ->
  isValidationOrAuthorization e = true -> w' = afterGate id w.
Proof.
  unfold specTransition2.
  destruct (gateVerdict id w) as [r [e0|]]; [intros H; now inversion H|].
  destruct (second =? 0); [intros H; now inversion H|].
  destruct (can (ctx svc) r); [|intros H; now inversion H].
  destruct (tr (store (afterGate id w))) as [err s].
  intros H Hva. inversion H; subst.
  rewrite (lift_not_validation err e H1) in Hva. discriminate.
Qed.

Lemma specTransition_validation (can : Ctx -> option Role -> bool)
    (c : Call Extra RF) (tr : method Store (option repositoryError))
    (id : N) (w : World) (e : error) (w' : World) :
  specTransition can c tr id w = (Done (Some e), w') ->
  isValidationOrAuthorization e = true -> w' = afterGate id w.
Proof.
  unfold specTransition.
  destruct (gateVerdict id w) as [r [e0|]]; [intros H; now inversion H|].
  destruct (can (ctx svc) r); [|intros H; now inversion H].
  destruct (tr (store (afterGate id w))) as [err s].
  intros H Hva. inversion H; subst.
  rewrite (lift_not_validation err e H1) in Hva. discriminate.
Qed.

Lemma afterGate_store (id : N) (w : World) :
  wellBehaved -> store (afterGate id w) = store w.
Proof.
  intros Hwb. unfold afterGate, afterFetch, after.
  destruct (id =? 0); [reflexivity|]. simpl. apply (FindByID_reads Hwb).
Qed.

Lemma specTransition2_store (can : Ctx -> option Role -> bool) (denied : error)
    (c : Call Extra RF) (tr : method Store (option repositoryError))
    (id second : N) (w : World) (e : error) (w' : World) :
  wellBehaved ->
  (forall s e0, fst (tr s) = Some e0 -> snd (tr s) = s) ->
  specTransition2 can denied c tr id second w = (Done (Some e), w') ->
  store w' = store w.
Proof.
  intros Hwb Htr. unfold specTransition2.
  destruct (gateVerdict id w) as [r [e0|]];
    [intros H; inversion H; now apply afterGate_store|].
  destruct (second =? 0); [intros H; inversion H; now apply afterGate_store|].
  destruct (can (ctx svc) r); [|intros H; inversion H; now apply afterGate_store].
  case_eq (tr (store (afterGate id w))). intros err s Ht H.
  inversion H; subst. destruct err as [e0|]; [|discriminate]. simpl.
  specialize (Htr (store (afterGate id w)) e0). rewrite Ht in Htr. simpl in Htr.
  rewrite Htr by reflexivity. now apply afterGate_store.
Qed.

Lemma specTransition_store (can : Ctx -> option Role -> bool)
    (c : Call Extra RF) (tr : method Store (option repositoryError))
    (id : N) (w : World) (e : error) (w' : World) :
  wellBehaved ->
  (forall s e0, fst (tr s) = Some e0 -> snd (tr s) = s) ->
  specTransition can c tr id w = (Done (Some e), w') ->
  store w' = store w.
Proof.
  intros Hwb Htr. unfold specTransition.
  destruct (gateVerdict id w) as [r [e0|]];
    [intros H; inversion H; now apply afterGate_store|].
  destruct (can (ctx svc) r); [|intros H; inversion H; now apply afterGate_store].
  case_eq (tr (store (afterGate id w))). intros err s Ht H.
  inversion H; subst. destruct err as [e0|]; [|discriminate]. simpl.
  specialize (Htr (store (afterGate id w)) e0). rewrite Ht in Htr. simpl in Htr.
  rewrite Htr by reflexivity. now apply afterGate_store.
Qed.

(** A failure of [Create] leaves the store as it was. *)
Lemma Create_error_store (md : Role) (w : World) (t : option Role) (e : error) (w' : World) :
  Create IsValid svc md w = (Done (t, Some e), w') -> store w' = store w.
Proof.
  rewrite Create_run.
  destruct (negb (IsValid (Handle md))); [intros H; now inversion H|].
  destruct (negb (CanCreateRole (ac svc) (ctx svc))); [intros H; now inversion H|].
  unfold createInTx.
  destruct (uniqueVerdict md w); [intros H; now inversion H|].
  intros H. apply persisted_error in H. apply H.
Qed.

(** A failure of [Update] leaves the store as it was. *)
Lemma Update_error_store (md : Role) (w : World) (t : option Role) (e : error) (w' : World) :
  Update IsValid svc md w = (Done (t, Some e), w') -> store w' = store w.
Proof.
  rewrite Update_run.
  destruct (ID md =? 0); [intros H; now inversion H|].
  destruct (negb (IsValid (Handle md))); [intros H; now inversion H|].
  destruct (negb (CanUpdateRole (ac svc) (ctx svc) (Some md))); [intros H; now inversion H|].
  unfold updateInTx.
  destruct (fetched (ID md) w) as [t0 [e0|]]; [intros H; now inversion H|].
  destruct (uniqueVerdict md (afterFetch (ID md) w)); [intros H; now inversion H|].
  destruct t0 as [t0|]; [|discriminate].
  intros H. apply persisted_error in H. apply H.
Qed.

(** C1, as amended.  A validation failure (InvalidID, InvalidHandle) or
    an authorization failure (NoPermission, NoCreatePermission,
    NoUpdatePermission) is returned before any repository write,
    transition or membership change.  [Create], [Update] and [Find], and
    every operation given a zero role identifier, then have made no
    repository call at all; the operations that start with the gate of
    [FindByID] on a non-zero identifier have made exactly one, the fetch
    of the role.  In particular the InvalidID of [Merge] and [Move] for a
    zero target, and of [MemberAdd] and [MemberRemove] for a zero user,
    comes after that one fetch and before anything else. *)
Theorem failures_precede_writes (op : operation) (w : World) :
  (forall e w',
     errorOf IsValid svc op w = (Done (Some e), w') ->
     isValidationOrAuthorization e = true ->
     w' = gateWorld op w /\ calls w' = calls w ++ gateCalls op) /\
  (forall id r,
     gateID op = Some id -> secondID op = Some 0 -> gateVerdict id w = (r, None) ->
     errorOf IsValid svc op w = (Done (Some (asError ErrInvalidID)), afterFetch id w) /\
     calls (afterFetch id w) = calls w ++ [CallFindByID id]).
Proof.
  split.
  - intros e w' H Hva.
    assert (Hw : w' = gateWorld op w).
    { unfold gateWorld.
      destruct op; simpl in H |- *; unfold errOnly, bind, FindByID in H.
      + rewrite findByID_run in H. now inversion H.
      + unfold FindByName, bind, invoke, ret in H.
        destruct (repository.FindByName (repo svc) name (store w)) as [[r err] s].
        simpl in H. inversion H; subst.
        rewrite (lift_not_validation err e H1) in Hva. discriminate.
      + unfold FindByHandle, bind, invoke, ret in H.
        destruct (repository.FindByHandle (repo svc) handle (store w)) as [[r err] s].
        simpl in H. inversion H; subst.
        rewrite (lift_not_validation err e H1) in Hva. discriminate.
      + rewrite Find_run in H. cbv zeta in H.
        destruct ((0 <? Deleted f) && negb (CanAccess (ac svc) (ctx svc))).
        * now inversion H.
        * destruct (repository.Find (repo svc) _ (store w)) as [[[set fr] err] s].
          simpl in H. inversion H; subst.
          rewrite (lift_not_validation err e H1) in Hva. discriminate.
      + rewrite Create_run in H.
        destruct (negb (IsValid (Handle md))); [now inversion H|].
        destruct (negb (CanCreateRole (ac svc) (ctx svc))); [now inversion H|].
        unfold createInTx in H.
        case_eq (uniqueVerdict md w).
        * intros e0 Hu. rewrite Hu in H. simpl in H. inversion H; subst.
          rewrite (uniqueVerdict_not_validation md w e Hu) in Hva. discriminate.
        * intros Hu. rewrite Hu in H.
          destruct (persisted _ _ _ _) as [[[t oe]|] w1] eqn:Hp; [|discriminate].
          simpl in H. inversion H; subst.
          apply persisted_error in Hp. destruct Hp as [Hp _].
          rewrite Hp in Hva. discriminate.
      + rewrite Update_run in H.
        destruct (ID md =? 0); [now inversion H|].
        destruct (negb (IsValid (Handle md))); [now inversion H|].
        destruct (negb (CanUpdateRole (ac svc) (ctx svc) (Some md))); [now inversion H|].
        unfold updateInTx in H.
        destruct (fetched (ID md) w) as [t0 [e0|]].
        * simpl in H. inversion H; subst. discriminate.
        * case_eq (uniqueVerdict md (afterFetch (ID md) w)).
          -- intros e0 Hu. rewrite Hu in H. simpl in H. inversion H; subst.
             rewrite (uniqueVerdict_not_validation _ _ e Hu) in Hva. discriminate.
          -- intros Hu. rewrite Hu in H. destruct t0 as [t0|]; [|discriminate].
             destruct (persisted _ _ _ _) as [[[t oe]|] w1] eqn:Hp; [|discriminate].
             simpl in H. inversion H; subst.
             apply persisted_error in Hp. destruct Hp as [Hp _].
             rewrite Hp in Hva. discriminate.
      + rewrite Merge_run in H. exact (specTransition2_validation _ _ _ _ _ _ _ _ _ H Hva).
      + rewrite Move_run in H. exact (specTransition2_validation _ _ _ _ _ _ _ _ _ H Hva).
      + rewrite Archive_run in H. exact (specTransition_validation _ _ _ _ _ _ _ H Hva).
      + rewrite Unarchive_run in H. exact (specTransition_validation _ _ _ _ _ _ _ H Hva).
      + rewrite Delete_run in H. exact (specTransition_validation _ _ _ _ _ _ _ H Hva).
      + rewrite Undelete_run in H. exact (specTransition_validation _ _ _ _ _ _ _ H Hva).
      + unfold Membership, bind, invoke, ret in H.
        destruct (MembershipsFindByUserID (repo svc) userID (store w)) as [[mm err] s].
        simpl in H. inversion H; subst.
        rewrite (lift_not_validation err e H1) in Hva. discriminate.
      + rewrite MemberList_run in H.
        destruct (gateVerdict roleID w) as [r [e0|]]; [now inversion H|].
        destruct (MemberFindByRoleID (repo svc) roleID (store (afterGate roleID w)))
          as [[mm err] s].
        simpl in H. inversion H; subst.
        rewrite (lift_not_validation err e H1) in Hva. discriminate.
      + rewrite MemberAdd_run in H.
        exact (specTransition2_validation _ _ _ _ _ _ _ _ _ H Hva).
      + rewrite MemberRemove_run in H.
        exact (specTransition2_validation _ _ _ _ _ _ _ _ _ H Hva). }
    split; [exact Hw|]. subst w'.
    unfold gateWorld, gateCalls, afterGate, afterFetch, after.
    destruct (gateID op) as [id|]; [|now rewrite app_nil_r].
    destruct (id =? 0); [now rewrite app_nil_r | reflexivity].
  - intros id r H1 H2 Hg.
    assert (Hid : afterGate id w = afterFetch id w).
    { apply gateVerdict_passes in Hg. destruct Hg as [Hne _].
      apply N.eqb_neq in Hne. unfold afterGate. now rewrite Hne. }
    split; [|reflexivity]. rewrite <- Hid.
    destruct op; simpl in H1, H2; try discriminate;
      inversion H1; inversion H2; subst; simpl;
      rewrite ?Merge_run, ?Move_run, ?MemberAdd_run, ?MemberRemove_run;
      unfold specTransition2; rewrite Hg; reflexivity.
Qed.

(** C5.  An error reported by [Create] or [Update] leaves the store as
    it was before the call, whatever the repository did inside the
    transaction; and inside the transaction the error reported is the one
    of the step that failed: the verdict of the uniqueness check, the
    error of the fetch, or the error of the write, passed on as it is.
    The other operations run outside a transaction: with a repository
    whose single calls are atomic ([wellBehaved]), an error reported by
    any operation leaves the store as it was. *)
Theorem errors_leave_store_unchanged :
  (forall md w t e w',
     Create IsValid svc md w = (Done (t, Some e), w') -> store w' = store w) /\
  (forall md w t e w',
     Update IsValid svc md w = (Done (t, Some e), w') -> store w' = store w) /\
  (forall md w,
     IsValid (Handle md) = true -> CanCreateRole (ac svc) (ctx svc) = true ->
     exists t w', Create IsValid svc md w = (Done (t, createTrigger md w), w')) /\
  (forall md w t err w',
     ID md <> 0 -> IsValid (Handle md) = true ->
     CanUpdateRole (ac svc) (ctx svc) (Some md) = true ->
     Update IsValid svc md w = (Done (t, err), w') -> err = updateTrigger md w) /\
  (wellBehaved ->
   forall op w e w',
     errorOf IsValid svc op w = (Done (Some e), w') -> store w' = store w).
Proof.
  split; [exact Create_error_store|].
  split; [exact Update_error_store|].
  split; [|split].
  - intros md w Hv Hc. rewrite Create_run, Hv, Hc. simpl.
    unfold createInTx, createTrigger.
    destruct (uniqueVerdict md w); [eexists; eexists; reflexivity|].
    unfold persisted.
    destruct (repository.Create (repo svc) md (store (afterUniqueCheck md w)))
      as [[t [e|]] s]; eexists; eexists; reflexivity.
  - intros md w t err w' Hid Hv Hc. apply N.eqb_neq in Hid.
    rewrite Update_run, Hid, Hv, Hc. simpl.
    unfold updateInTx, updateTrigger.
    destruct (fetched (ID md) w) as [t0 [e0|]]; [intros H; now inversion H|].
    destruct (uniqueVerdict md (afterFetch (ID md) w)); [intros H; now inversion H|].
    destruct t0 as [t0|]; [|discriminate].
    unfold persisted.
    destruct (repository.Update (repo svc) (applyChanges t0 md) _) as [[t1 [e|]] s];
      intros H; now inversion H.
  - intros Hwb op w e w' H.
    destruct op; simpl in H; unfold errOnly, bind, FindByID in H.
    + rewrite findByID_run in H. inversion H. now apply afterGate_store.
    + unfold FindByName, bind, invoke, ret in H.
      pose proof (FindByName_reads Hwb name (store w)) as Hr.
      destruct (repository.FindByName (repo svc) name (store w)) as [[r err] s].
      simpl in H, Hr. inversion H; subst. reflexivity.
    + unfold FindByHandle, bind, invoke, ret in H.
      pose proof (FindByHandle_reads Hwb handle (store w)) as Hr.
      destruct (repository.FindByHandle (repo svc) handle (store w)) as [[r err] s].
      simpl in H, Hr. inversion H; subst. reflexivity.
    + rewrite Find_run in H. cbv zeta in H.
      destruct ((0 <? Deleted f) && negb (CanAccess (ac svc) (ctx svc))).
      * now inversion H.
      * match type of H with
        | context [repository.Find (repo svc) ?g (store w)] =>
            pose proof (Find_reads Hwb g (store w)) as Hr;
            destruct (repository.Find (repo svc) g (store w)) as [[[set fr] err] s]
        end.
        simpl in H, Hr. inversion H; subst. reflexivity.
    + destruct (Create IsValid svc md w) as [[[t oe]|] w1] eqn:Hc; [|discriminate].
      simpl in H. inversion H; subst. exact (Create_error_store _ _ _ _ _ Hc).
    + destruct (Update IsValid svc md w) as [[[t oe]|] w1] eqn:Hc; [|discriminate].
      simpl in H. inversion H; subst. exact (Update_error_store _ _ _ _ _ Hc).
    + rewrite Merge_run in H.
      exact (specTransition2_store _ _ _ _ _ _ _ _ _ Hwb (Merge_atomic Hwb _ _) H).
    + rewrite Move_run in H.
      exact (specTransition2_store _ _ _ _ _ _ _ _ _ Hwb (Move_atomic Hwb _ _) H).
    + rewrite Archive_run in H.
      exact (specTransition_store _ _ _ _ _ _ _ Hwb (Archive_atomic Hwb _) H).
    + rewrite Unarchive_run in H.
      exact (specTransition_store _ _ _ _ _ _ _ Hwb (Unarchive_atomic Hwb _) H).
    + rewrite Delete_run in H.
      exact (specTransition_store _ _ _ _ _ _ _ Hwb (Delete_atomic Hwb _) H).
    + rewrite Undelete_run in H.
      exact (specTransition_store _ _ _ _ _ _ _ Hwb (Undelete_atomic Hwb _) H).
    + unfold Membership, bind, invoke, ret in H.
      pose proof (Memberships_reads Hwb userID (store w)) as Hr.
      destruct (MembershipsFindByUserID (repo svc) userID (store w)) as [[mm err] s].
      simpl in H, Hr. inversion H; subst. reflexivity.
    + rewrite MemberList_run in H.
      destruct (gateVerdict roleID w) as [r [e0|]];
        [inversion H; now apply afterGate_store|].
      pose proof (Members_reads Hwb roleID (store (afterGate roleID w))) as Hr.
      destruct (MemberFindByRoleID (repo svc) roleID (store (afterGate roleID w)))
        as [[mm err] s].
      simpl in H, Hr. inversion H; subst. simpl. now apply afterGate_store.
    + rewrite MemberAdd_run in H.
      exact (specTransition2_store _ _ _ _ _ _ _ _ _ Hwb (MemberAdd_atomic Hwb _ _) H).
    + rewrite MemberRemove_run in H.
      exact (specTransition2_store _ _ _ _ _ _ _ _ _ Hwb (MemberRemove_atomic Hwb _ _) H).
Qed.

(* ------------------------------------------------------------------ *)
(** *** Further properties: the operations behind the gate *)

Lemma afterGate_nonzero (id : N) (w : World) :
  id <> 0 -> afterGate id w = afterFetch id w.
Proof. intros H. apply N.eqb_neq in H. unfold afterGate. now rewrite H. Qed.

Lemma gateVerdict_readable (id : N) (w : World) (r : option Role) :
  id <> 0 -> fetched id w = (r, None) -> CanReadRole (ac svc) (ctx svc) r = true ->
  gateVerdict id w = (r, None).
Proof.
  intros H Hf Hc. apply N.eqb_neq in H. unfold gateVerdict. now rewrite H, Hf, Hc.
Qed.

(** Every operation that changes an existing role or its members is the
    gate, the test of the second identifier, the capability and the
    primitive, in that order. *)
Lemma mutating_run (op : operation) (w : World)
    (can : Ctx -> option Role -> bool) (c : Call Extra RF)
    (tr : method Store (option repositoryError)) (id : N) :
  capability op = Some can -> primitive op = Some (c, tr) -> gateID op = Some id ->
  errorOf IsValid svc op w = specTransition2 can (denial op) c tr id (secondOr1 op) w.
Proof.
  destruct op; simpl; try discriminate; intros H1 H2 H3;
    inversion H1; inversion H2; inversion H3; subst; unfold secondOr1; simpl.
  - apply Merge_run.
  - apply Move_run.
  - rewrite Archive_run. symmetry. now apply specTransition2_nonzero.
  - rewrite Unarchive_run. symmetry. now apply specTransition2_nonzero.
  - rewrite Delete_run. symmetry. now apply specTransition2_nonzero.
  - rewrite Undelete_run. symmetry. now apply specTransition2_nonzero.
  - apply MemberAdd_run.
  - apply MemberRemove_run.
Qed.

Lemma gated_failure (op : operation) (id : N) (w : World) (r : option Role) (e : error) :
  gateID op = Some id -> gateVerdict id w = (r, Some e) ->
  errorOf IsValid svc op w = (Done (Some e), afterGate id w).
Proof.
  intros H Hg.
  destruct op; simpl in H; try discriminate; inversion H; subst; simpl;
    unfold errOnly, bind, FindByID;
    rewrite ?findByID_run, ?Merge_run, ?Move_run, ?Archive_run, ?Unarchive_run,
      ?Delete_run, ?Undelete_run, ?MemberList_run, ?MemberAdd_run, ?MemberRemove_run;
    unfold specTransition, specTransition2; rewrite Hg; reflexivity.
Qed.

(** X1.  Whatever the operation that starts with the gate of [FindByID]
    (reads, transitions and membership changes alike), a failed fetch
    ends it with the repository's error, and a role the caller cannot
    read ends it with NoPermission, whatever other capability the caller
    holds; in both cases the fetch is the only repository call. *)
Theorem gate_failure_ends_operation (op : operation) (id : N) (w : World) :
  gateID op = Some id -> id <> 0 ->
  (forall r e, fetched id w = (r, Some e) ->
     errorOf IsValid svc op w = (Done (Some (fromRepository e)), afterFetch id w)) /\
  (forall r, fetched id w = (r, None) -> CanReadRole (ac svc) (ctx svc) r = false ->
     errorOf IsValid svc op w = (Done (Some (withStack ErrNoPermissions)), afterFetch id w)).
Proof.
  intros H Hid. rewrite <- (afterGate_nonzero id w Hid).
  assert (Hz : (id =? 0) = false) by now apply N.eqb_neq.
  split.
  - intros r e Hf. apply (gated_failure op id w None _ H).
    unfold gateVerdict. now rewrite Hz, Hf.
  - intros r Hf Hc. apply (gated_failure op id w None _ H).
    unfold gateVerdict. now rewrite Hz, Hf, Hc.
Qed.

(** X2.  An operation that changes an existing role or its members
    reports success exactly when the identifiers are non-zero, the fetch
    returned without error a role the caller can read and holds the
    operation's capability on, and the repository primitive, called
    right after the fetch, returned no error.  Success is never reported
    without the primitive having been called. *)
Theorem success_means_transition (op : operation) (w w' : World)
    (can : Ctx -> option Role -> bool) (c : Call Extra RF)
    (tr : method Store (option repositoryError)) (id : N) :
  capability op = Some can -> primitive op = Some (c, tr) -> gateID op = Some id ->
  (errorOf IsValid svc op w = (Done None, w') <->
     id <> 0 /\ secondOr1 op <> 0 /\
     (exists r, fetched id w = (r, None) /\
                CanReadRole (ac svc) (ctx svc) r = true /\ can (ctx svc) r = true) /\
     tr (store (afterFetch id w)) = (None, store w') /\
     calls w' = calls w ++ [CallFindByID id; c]).
Proof.
  intros H1 H2 H3. rewrite (mutating_run op w can c tr id H1 H2 H3).
  unfold specTransition2. split.
  - case_eq (gateVerdict id w). intros r [e|] Hg; [discriminate|].
    destruct (gateVerdict_passes id w r Hg) as (Hid & Hf & Hc).
    rewrite (afterGate_nonzero id w Hid).
    case_eq (secondOr1 op =? 0); intros Hs; [discriminate|].
    case_eq (can (ctx svc) r); intros Hcan; [|discriminate].
    case_eq (tr (store (afterFetch id w))). intros err s Ht H.
    inversion H; subst. destruct err; [discriminate|].
    split; [exact Hid|]. split; [now apply N.eqb_neq|].
    split; [exists r; auto|]. split; [reflexivity|].
    unfold after, afterFetch; simpl. now rewrite <- app_assoc.
  - intros (Hid & Hs & (r & Hf & Hc & Hcan) & Ht & Hcalls).
    rewrite (gateVerdict_readable id w r Hid Hf Hc).
    apply N.eqb_neq in Hs. rewrite Hs, Hcan, (afterGate_nonzero id w Hid), Ht.
    destruct w' as [s' l']. simpl in *. subst l'.
    unfold after, afterFetch; simpl. now rewrite <- app_assoc.
Qed.

(** X3.  When the role has passed the gate and the second identifier is
    not zero, a missing capability ends the operation before its
    primitive: [Delete], [Undelete], [Archive], [Unarchive], [Merge] and
    [Move] fail with NoPermission, while [MemberAdd] and [MemberRemove]
    fail with the plain error "Not allowed to manage role members",
    which is none of the service's error kinds. *)
Theorem missing_capability_denied (op : operation) (w : World)
    (can : Ctx -> option Role -> bool) (c : Call Extra RF)
    (tr : method Store (option repositoryError)) (id : N) (r : option Role) :
  capability op = Some can -> primitive op = Some (c, tr) -> gateID op = Some id ->
  gateVerdict id w = (r, None) -> secondOr1 op <> 0 -> can (ctx svc) r = false ->
  errorOf IsValid svc op w = (Done (Some (denial op)), afterFetch id w) /\
  isValidationOrAuthorization (denial op) =
    match op with
    | OpMemberAdd _ _ | OpMemberRemove _ _ => false
    | _ => true
    end.
Proof.
  intros H1 H2 H3 Hg Hs Hcan.
  split.
  - rewrite (mutating_run op w can c tr id H1 H2 H3). unfold specTransition2.
    rewrite Hg. apply N.eqb_neq in Hs. rewrite Hs, Hcan.
    destruct (gateVerdict_passes id w r Hg) as (Hid & _).
    now rewrite (afterGate_nonzero id w Hid).
  - destruct op; simpl in H1 |- *; try discriminate; reflexivity.
Qed.

(* ------------------------------------------------------------------ *)
(** *** Further properties: what reaches the repository *)

Lemma errOnly_world (A : Type) (m : M (A * option error)) (w : World) :
  snd (errOnly m w) = snd (m w).
Proof. unfold errOnly, bind, ret. destruct (m w) as [[a|] w1]; reflexivity. Qed.

Lemma oneWrite_lookups (w w' : World) (P : Call Extra RF -> Prop) (l : list (Call Extra RF)) :
  calls w' = calls w ++ l -> onlyLookups l -> oneWrite w w' P.
Proof. intros H Hl. exists l. split; [exact H|]. now left. Qed.

Lemma oneWrite_write (w w' : World) (P : Call Extra RF -> Prop)
    (l : list (Call Extra RF)) (c : Call Extra RF) :
  calls w' = calls w ++ l ++ [c] -> onlyLookups l -> P c -> oneWrite w w' P.
Proof.
  intros H Hl Hc. exists (l ++ [c]). split; [exact H|]. right.
  exists l, c. auto.
Qed.

Lemma afterGate_calls (id : N) (w : World) :
  exists l, calls (afterGate id w) = calls w ++ l /\ onlyLookups l.
Proof.
  unfold afterGate, afterFetch, after. destruct (id =? 0); simpl.
  - exists []. now rewrite app_nil_r.
  - exists [CallFindByID id]. split; reflexivity.
Qed.

Lemma specTransition2_oneWrite (can : Ctx -> option Role -> bool) (denied : error)
    (c : Call Extra RF) (tr : method Store (option repositoryError))
    (id second : N) (w : World) (P : Call Extra RF -> Prop) :
  P c -> oneWrite w (snd (specTransition2 can denied c tr id second w)) P.
Proof.
  intros Hc. destruct (afterGate_calls id w) as (l & Hl & Hlook).
  unfold specTransition2.
  destruct (gateVerdict id w) as [r [e|]]; [now apply (oneWrite_lookups _ _ _ l)|].
  destruct (second =? 0); [now apply (oneWrite_lookups _ _ _ l)|].
  destruct (can (ctx svc) r); [|now apply (oneWrite_lookups _ _ _ l)].
  destruct (tr (store (afterGate id w))) as [err s].
  apply (oneWrite_write _ _ _ l c); [|assumption|assumption].
  cbn [snd after calls]. rewrite Hl. now rewrite <- app_assoc.
Qed.

Lemma persisted_calls (w0 wu : World) (c : Call Extra RF)
    (res : (option Role * option repositoryError) * Store) :
  calls (snd (persisted w0 wu c res)) = calls wu ++ [c].
Proof. unfold persisted. destruct res as [[t [e|]] s]; reflexivity. Qed.

Lemma Create_oneWrite (md : Role) (w : World) :
  oneWrite w (snd (Create IsValid svc md w)) (fun c => c = CallCreate md).
Proof.
  rewrite Create_run.
  destruct (negb (IsValid (Handle md)));
    [apply (oneWrite_lookups _ _ _ []); [now rewrite app_nil_r | reflexivity]|].
  destruct (negb (CanCreateRole (ac svc) (ctx svc)));
    [apply (oneWrite_lookups _ _ _ []); [now rewrite app_nil_r | reflexivity]|].
  unfold createInTx.
  destruct (afterUniqueCheck_calls md w) as (l & Hl & Hlook).
  destruct (uniqueVerdict md w); [now apply (oneWrite_lookups _ _ _ l)|].
  apply (oneWrite_write _ _ _ l (CallCreate md)); [|assumption|reflexivity].
  rewrite persisted_calls, Hl. now rewrite <- app_assoc.
Qed.

Lemma Update_oneWrite (md : Role) (w : World) :
  oneWrite w (snd (Update IsValid svc md w))
    (fun c => exists t, fetched (ID md) w = (Some t, None) /\
                        c = CallUpdate (applyChanges t md)).
Proof.
  rewrite Update_run.
  destruct (ID md =? 0);
    [apply (oneWrite_lookups _ _ _ []); [now rewrite app_nil_r | reflexivity]|].
  destruct (negb (IsValid (Handle md)));
    [apply (oneWrite_lookups _ _ _ []); [now rewrite app_nil_r | reflexivity]|].
  destruct (negb (CanUpdateRole (ac svc) (ctx svc) (Some md)));
    [apply (oneWrite_lookups _ _ _ []); [now rewrite app_nil_r | reflexivity]|].
  unfold updateInTx.
  destruct (afterUniqueCheck_calls md (afterFetch (ID md) w)) as (l & Hl & Hlook).
  assert (Hl' : calls (afterUniqueCheck md (afterFetch (ID md) w)) =
                calls w ++ CallFindByID (ID md) :: l).
  { rewrite Hl. unfold afterFetch, after; simpl. now rewrite <- app_assoc. }
  assert (Hlook' : onlyLookups (CallFindByID (ID md) :: l)) by exact Hlook.
  case_eq (fetched (ID md) w). intros t [e|] Hf.
  { apply (oneWrite_lookups _ _ _ [CallFindByID (ID md)]); reflexivity. }
  destruct (uniqueVerdict md (afterFetch (ID md) w));
    [now apply (oneWrite_lookups _ _ _ (CallFindByID (ID md) :: l))|].
  destruct t as [t0|];
    [|now apply (oneWrite_lookups _ _ _ (CallFindByID (ID md) :: l))].
  apply (oneWrite_write _ _ _ (CallFindByID (ID md) :: l)
           (CallUpdate (applyChanges t0 md))); [|assumption|].
  - rewrite persisted_calls, Hl'. now rewrite <- app_assoc.
  - exists t0. split; reflexivity.
Qed.

Lemma query_lookups (op : operation) (w : World) :
  isQuery op = true ->
  exists l, calls (snd (errorOf IsValid svc op w)) = calls w ++ l /\ onlyLookups l.
Proof.
  destruct op; simpl; try discriminate; intros _; rewrite errOnly_world.
  - unfold FindByID. rewrite findByID_run. apply afterGate_calls.
  - unfold FindByName, bind, invoke, ret.
    destruct (repository.FindByName (repo svc) name (store w)) as [[r err] s].
    exists [CallFindByName name]. split; reflexivity.
  - unfold FindByHandle, bind, invoke, ret.
    destruct (repository.FindByHandle (repo svc) handle (store w)) as [[r err] s].
    exists [CallFindByHandle handle]. split; reflexivity.
  - rewrite Find_run. cbv zeta.
    destruct ((0 <? Deleted f) && negb (CanAccess (ac svc) (ctx svc))).
    + exists []. split; [now rewrite app_nil_r | reflexivity].
    + destruct (repository.Find (repo svc) _ (store w)) as [[[set fr] err] s].
      eexists [_]. split; reflexivity.
  - unfold Membership, bind, invoke, ret.
    destruct (MembershipsFindByUserID (repo svc) userID (store w)) as [[mm err] s].
    exists [CallMembershipsFindByUserID userID]. split; reflexivity.
  - rewrite MemberList_run.
    destruct (afterGate_calls roleID w) as (l & Hl & Hlook).
    destruct (gateVerdict roleID w) as [r [e|]]; [exists l; auto|].
    destruct (MemberFindByRoleID (repo svc) roleID (store (afterGate roleID w)))
      as [[mm err] s].
    exists (l ++ [CallMemberFindByRoleID roleID]). simpl. split.
    + rewrite Hl. now rewrite <- app_assoc.
    + unfold onlyLookups in *. rewrite forallb_app, Hlook. reflexivity.
Qed.

(** X4.  Whatever an operation returns, it only appends to the log of
    repository calls, and what it appends is a run of lookups followed
    by at most one other call: the operation's own primitive with the
    operation's own arguments ([Create] with the payload, [Update] with
    the fetched role carrying the payload's name and handle, a
    transition or membership change with the identifiers given).  No
    operation ever issues two writes, or the write of another
    operation. *)
Theorem single_write (op : operation) (w : World) :
  oneWrite w (snd (errorOf IsValid svc op w)) (ownWrite op w).
Proof.
  destruct (isQuery op) eqn:Hq.
  - destruct (query_lookups op w Hq) as (l & Hl & Hlook).
    now apply (oneWrite_lookups _ _ _ l).
  - destruct op; try discriminate Hq;
      try (match goal with
           | |- oneWrite _ (snd (errorOf _ _ ?o _)) _ =>
               erewrite (mutating_run o w) by reflexivity
           end;
           apply specTransition2_oneWrite; simpl; eexists; reflexivity);
      simpl errorOf; rewrite errOnly_world.
    + apply Create_oneWrite.
    + apply Update_oneWrite.
Qed.

(** X5.  The six reading operations ([FindByID], [FindByName],
    [FindByHandle], [Find], [Membership], [MemberList]) always return,
    call the repository for lookups only, and, with a repository whose
    lookups do not write, leave the store as it was, whether they
    succeed or fail. *)
Theorem queries_never_write (op : operation) (w : World) :
  isQuery op = true ->
  (exists o, fst (errorOf IsValid svc op w) = Done o) /\
  (exists l, calls (snd (errorOf IsValid svc op w)) = calls w ++ l /\ onlyLookups l) /\
  (wellBehaved -> store (snd (errorOf IsValid svc op w)) = store w).
Proof.
  intros Hq. split; [|split; [now apply query_lookups|]].
  - destruct op; simpl in Hq |- *; try discriminate; unfold errOnly, bind, ret.
    + unfold FindByID. rewrite findByID_run. eexists; reflexivity.
    + unfold FindByName, bind, invoke, ret.
      destruct (repository.FindByName (repo svc) name (store w)) as [[r err] s].
      eexists; reflexivity.
    + unfold FindByHandle, bind, invoke, ret.
      destruct (repository.FindByHandle (repo svc) handle (store w)) as [[r err] s].
      eexists; reflexivity.
    + rewrite Find_run. cbv zeta.
      destruct ((0 <? Deleted f) && negb (CanAccess (ac svc) (ctx svc)));
        [eexists; reflexivity|].
      destruct (repository.Find (repo svc) _ (store w)) as [[[set fr] err] s].
      eexists; reflexivity.
    + unfold Membership, bind, invoke, ret.
      destruct (MembershipsFindByUserID (repo svc) userID (store w)) as [[mm err] s].
      eexists; reflexivity.
    + rewrite MemberList_run.
      destruct (gateVerdict roleID w) as [r [e|]]; [eexists; reflexivity|].
      destruct (MemberFindByRoleID (repo svc) roleID (store (afterGate roleID w)))
        as [[mm err] s].
      eexists; reflexivity.
  - intros Hwb.
    destruct op; simpl in Hq |- *; try discriminate; rewrite errOnly_world.
    + unfold FindByID. rewrite findByID_run. now apply afterGate_store.
    + unfold FindByName, bind, invoke, ret.
      pose proof (FindByName_reads Hwb name (store w)) as Hr.
      destruct (repository.FindByName (repo svc) name (store w)) as [[r err] s].
      exact Hr.
    + unfold FindByHandle, bind, invoke, ret.
      pose proof (FindByHandle_reads Hwb handle (store w)) as Hr.
      destruct (repository.FindByHandle (repo svc) handle (store w)) as [[r err] s].
      exact Hr.
    + rewrite Find_run. cbv zeta.
      destruct ((0 <? Deleted f) && negb (CanAccess (ac svc) (ctx svc)));
        [reflexivity|].
      match goal with
      | |- context [repository.Find (repo svc) ?g (store w)] =>
          pose proof (Find_reads Hwb g (store w)) as Hr;
          destruct (repository.Find (repo svc) g (store w)) as [[[set fr] err] s]
      end.
      exact Hr.
    + unfold Membership, bind, invoke, ret.
      pose proof (Memberships_reads Hwb userID (store w)) as Hr.
      destruct (MembershipsFindByUserID (repo svc) userID (store w)) as [[mm err] s].
      exact Hr.
    + rewrite MemberList_run.
      destruct (gateVerdict roleID w) as [r [e|]]; [now apply afterGate_store|].
      pose proof (Members_reads Hwb roleID (store (afterGate roleID w))) as Hr.
      destruct (MemberFindByRoleID (repo svc) roleID (store (afterGate roleID w)))
        as [[mm err] s].
      simpl in Hr |- *. rewrite Hr. now apply afterGate_store.
Qed.

(* ------------------------------------------------------------------ *)
(** *** Further properties: errors, panics and the order of [Update] *)

Lemma lift_some (err : option repositoryError) (e : error) :
  lift err = Some e -> exists x, e = fromRepository x.
Proof. destruct err as [x|]; simpl; intros H; inversion H. now exists x. Qed.

Lemma gateVerdict_errors (id : N) (w : World) (r : option Role) (e : error) :
  gateVerdict id w = (r, Some e) ->
  e = asError ErrInvalidID \/ e = withStack ErrNoPermissions \/
  exists x, e = fromRepository x.
Proof.
  unfold gateVerdict. destruct (id =? 0); [intros H; inversion H; auto|].
  destruct (fetched id w) as [fr [x|]]; [intros H; inversion H; eauto|].
  destruct (CanReadRole (ac svc) (ctx svc) fr); intros H; inversion H; auto.
Qed.

Lemma specTransition2_errors (can : Ctx -> option Role -> bool) (denied : error)
    (c : Call Extra RF) (tr : method Store (option repositoryError))
    (id second : N) (w : World) (e : error) (w' : World) :
  specTransition2 can denied c tr id second w = (Done (Some e), w') ->
  e = asError ErrInvalidID \/ e = withStack ErrNoPermissions \/
  (exists x, e = fromRepository x) \/ e = denied.
Proof.
  unfold specTransition2. case_eq (gateVerdict id w). intros r [e0|] Hg.
  - intros H. inversion H; subst.
    destruct (gateVerdict_errors id w r e Hg) as [H0|[H0|H0]]; auto.
  - destruct (second =? 0); [intros H; inversion H; auto|].
    destruct (can (ctx svc) r); [|intros H; inversion H; auto].
    destruct (tr (store (afterGate id w))) as [err s].
    intros H. inversion H. right. right. left. now apply (lift_some err).
Qed.

Lemma uniqueVerdict_errors (r : Role) (w : World) (e : error) :
  uniqueVerdict r w = Some e ->
  e = asError ErrRoleHandleNotUnique \/ e = asError ErrRoleNameNotUnique.
Proof.
  unfold uniqueVerdict. destruct (handleTakenb r w); [intros H; inversion H; auto|].
  destruct (nameTakenb r w); intros H; inversion H; auto.
Qed.

Lemma uniqueVerdict_none (r : Role) (w : World) :
  uniqueVerdict r w = None <-> ~ handleTaken r w /\ ~ nameTaken r w.
Proof.
  rewrite <- handleTakenb_spec, <- nameTakenb_spec. unfold uniqueVerdict.
  destruct (handleTakenb r w); destruct (nameTakenb r w); split;
    try discriminate; try reflexivity; try (intros [H1 H2]; exfalso; auto; fail);
    intros _; split; discriminate.
Qed.

Lemma afterUniqueCheck_passed (r : Role) (w : World) :
  ~ handleTaken r w -> afterUniqueCheck r w = afterNameLookup r (afterHandleLookup r w).
Proof.
  intros H. unfold afterUniqueCheck.
  destruct (handleTakenb r w) eqn:Hb; [|reflexivity].
  exfalso. apply H. now apply handleTakenb_spec.
Qed.





(** X6.  The errors an operation can report are few and known per
    operation: an error forwarded from the repository, for any of them;
    InvalidID and NoPermission for the operations behind the gate;
    NoPermission for [Find]; InvalidHandle, NoCreatePermission and the
    two uniqueness errors for [Create]; these, InvalidID and
    NoUpdatePermission instead of NoCreatePermission for [Update]; the
    plain "Not allowed to manage role members" for [MemberAdd] and
    [MemberRemove] only.  [FindByName], [FindByHandle] and [Membership]
    report nothing but repository errors. *)
Theorem reported_errors (op : operation) (w : World) (e : error) (w' : World) :
  errorOf IsValid svc op w = (Done (Some e), w') -> mayReport op e = true.
Proof.
  intros H.
  destruct (capability op) as [can|] eqn:Hcap.
  - destruct op; simpl in Hcap; try discriminate;
      match type of H with
      | errorOf _ _ ?o _ = _ => erewrite (mutating_run o w) in H by reflexivity
      end;
      apply specTransition2_errors in H;
      destruct H as [H|[H|[[x H]|H]]]; subst; reflexivity.
  - destruct op; simpl in Hcap; try discriminate; simpl in H;
      unfold errOnly, bind, FindByID in H.
    + rewrite findByID_run in H. inversion H.
      destruct (gateVerdict roleID w) as [r [e0|]] eqn:Hg; simpl in *; [|discriminate].
      match goal with Hs : Some _ = Some e |- _ => inversion Hs; subst end.
      destruct (gateVerdict_errors roleID w r e Hg) as [H0|[H0|[x H0]]];
        subst; reflexivity.
    + unfold FindByName, bind, invoke, ret in H.
      destruct (repository.FindByName (repo svc) name (store w)) as [[r err] s].
      inversion H. destruct (lift_some err e) as [x Hx]; [assumption|].
      subst; reflexivity.
    + unfold FindByHandle, bind, invoke, ret in H.
      destruct (repository.FindByHandle (repo svc) handle (store w)) as [[r err] s].
      inversion H. destruct (lift_some err e) as [x Hx]; [assumption|].
      subst; reflexivity.
    + rewrite Find_run in H. cbv zeta in H.
      destruct ((0 <? Deleted f) && negb (CanAccess (ac svc) (ctx svc)));
        [inversion H; reflexivity|].
      destruct (repository.Find (repo svc) _ (store w)) as [[[set fr] err] s].
      inversion H. destruct (lift_some err e) as [x Hx]; [assumption|].
      subst; reflexivity.
    + rewrite Create_run in H.
      destruct (negb (IsValid (Handle md))); [inversion H; reflexivity|].
      destruct (negb (CanCreateRole (ac svc) (ctx svc))); [inversion H; reflexivity|].
      unfold createInTx in H. destruct (uniqueVerdict md w) as [e0|] eqn:Hu.
      * inversion H; subst.
        destruct (uniqueVerdict_errors md w e Hu); subst; reflexivity.
      * destruct (persisted _ _ _ _) as [[[t oe]|] w1] eqn:Hp; [|discriminate].
        simpl in H. inversion H; subst.
        apply persisted_error in Hp. destruct Hp as (_ & _ & Hp).
        destruct (lift_some _ e Hp) as [x Hx]. subst; reflexivity.
    + rewrite Update_run in H.
      destruct (ID md =? 0); [inversion H; reflexivity|].
      destruct (negb (IsValid (Handle md))); [inversion H; reflexivity|].
      destruct (negb (CanUpdateRole (ac svc) (ctx svc) (Some md)));
        [inversion H; reflexivity|].
      unfold updateInTx in H.
      destruct (fetched (ID md) w) as [t0 [e0|]]; [inversion H; reflexivity|].
      destruct (uniqueVerdict md (afterFetch (ID md) w)) as [e0|] eqn:Hu.
      * inversion H; subst.
        destruct (uniqueVerdict_errors md _ e Hu); subst; reflexivity.
      * destruct t0 as [t0|]; [|discriminate].
        destruct (persisted _ _ _ _) as [[[t oe]|] w1] eqn:Hp; [|discriminate].
        simpl in H. inversion H; subst.
        apply persisted_error in Hp. destruct Hp as (_ & _ & Hp).
        destruct (lift_some _ e Hp) as [x Hx]. subst; reflexivity.
    + unfold Membership, bind, invoke, ret in H.
      destruct (MembershipsFindByUserID (repo svc) userID (store w)) as [[mm err] s].
      inversion H. destruct (lift_some err e) as [x Hx]; [assumption|].
      subst; reflexivity.
    + rewrite MemberList_run in H.
      destruct (gateVerdict roleID w) as [r [e0|]] eqn:Hg.
      * inversion H; subst.
        destruct (gateVerdict_errors roleID w r e Hg) as [H0|[H0|[x H0]]];
          subst; reflexivity.
      * destruct (MemberFindByRoleID (repo svc) roleID (store (afterGate roleID w)))
          as [[mm err] s].
        inversion H. destruct (lift_some err e) as [x Hx]; [assumption|].
        subst; reflexivity.
Qed.


(** X8.  The order of [Update].  After the zero-ID test come the handle
    test and then the update capability, evaluated on the payload: all
    three before any repository call, so that an unauthorized update of
    a role that does not exist reports NoUpdatePermission and not
    not-found.  In the transaction, a failed fetch is reported with the
    role the repository returned; then the handle conflict, then the
    name conflict, each reported together with the fetched role (not
    nil) and with the store rolled back; only then is the changed role
    written. *)
Theorem Update_order (md : Role) (w : World) :
  ID md <> 0 ->
  let wf := afterFetch (ID md) w in
  (IsValid (Handle md) = false ->
     Update IsValid svc md w = (Done (None, Some (asError ErrInvalidHandle)), w)) /\
  (IsValid (Handle md) = true -> CanUpdateRole (ac svc) (ctx svc) (Some md) = false ->
     Update IsValid svc md w = (Done (None, Some (withStack ErrNoUpdatePermissions)), w)) /\
  (IsValid (Handle md) = true -> CanUpdateRole (ac svc) (ctx svc) (Some md) = true ->
     (forall t e, fetched (ID md) w = (t, Some e) ->
        Update IsValid svc md w = (Done (t, Some (fromRepository e)), rolledBack w wf)) /\
     (forall t, fetched (ID md) w = (t, None) -> handleTaken md wf ->
        Update IsValid svc md w =
          (Done (t, Some (asError ErrRoleHandleNotUnique)),
           rolledBack w (afterHandleLookup md wf))) /\
     (forall t, fetched (ID md) w = (t, None) -> ~ handleTaken md wf -> nameTaken md wf ->
        Update IsValid svc md w =
          (Done (t, Some (asError ErrRoleNameNotUnique)),
           rolledBack w (afterNameLookup md (afterHandleLookup md wf)))) /\
     (forall t, fetched (ID md) w = (Some t, None) ->
        ~ handleTaken md wf -> ~ nameTaken md wf ->
        let wu := afterNameLookup md (afterHandleLookup md wf) in
        Update IsValid svc md w =
          persisted w wu (CallUpdate (applyChanges t md))
            (repository.Update (repo svc) (applyChanges t md) (store wu)))).
Proof.
  intros Hid wf. apply N.eqb_neq in Hid. rewrite Update_run, Hid.
  split; [intros ->; reflexivity|].
  split; [intros -> ->; reflexivity|].
  intros -> ->. simpl. unfold updateInTx. fold wf.
  split; [intros t e ->; reflexivity|].
  split; [|split].
  - intros t -> Hh. apply handleTakenb_spec in Hh.
    unfold uniqueVerdict, afterUniqueCheck. now rewrite Hh.
  - intros t -> Hh Hn. apply nameTakenb_spec in Hn.
    assert (Hb : handleTakenb md wf = false).
    { apply not_true_is_false. now rewrite handleTakenb_spec. }
    unfold uniqueVerdict, afterUniqueCheck. now rewrite Hb, Hn.
  - intros t -> Hh Hn. cbv zeta.
    assert (Hu : uniqueVerdict md wf = None) by now apply uniqueVerdict_none.
    rewrite Hu, (afterUniqueCheck_passed md wf Hh). reflexivity.
Qed.

(* ------------------------------------------------------------------ *)
(** *** Further properties: visibility, uniqueness lookups, success *)

(** X9.  [Find] discards the [IsReadable] predicate of the filter it is
    given: the result is the same whatever predicate the caller put
    there, and the only repository call [Find] can make is its [Find]
    with the access controller's predicate in the filter. *)
Theorem Find_ignores_caller_predicate (f : RoleFilter RF) (v : option RF) (w : World) :
  Find svc (setIsReadable f v) w = Find svc f w /\
  (forall c, In c (calls (snd (Find svc f w))) ->
     In c (calls w) \/
     exists g, c = CallFind g /\
               IsReadable g = FilterReadableRoles (ac svc) (ctx svc) /\
               Query g = Query f /\ Deleted g = Deleted f).
Proof.
  split; [rewrite !Find_run; reflexivity|].
  rewrite Find_run. cbv zeta. intros c.
  destruct ((0 <? Deleted f) && negb (CanAccess (ac svc) (ctx svc))); [now left|].
  destruct (repository.Find (repo svc) _ (store w)) as [[[set fr] err] s].
  simpl. rewrite in_app_iff. intros [H|[H|[]]]; [now left|].
  right. eexists. split; [symmetry; exact H|]. repeat split.
Qed.

(** X10.  [UniqueCheck] calls the repository for lookups only, and for
    no more than it needs: [FindByHandle] unless the handle is empty,
    then [FindByName] unless the handle is already taken or the name is
    empty.  A role with neither handle nor name passes without any call.
    With a repository whose lookups do not write, the store is left as
    it was. *)
Theorem UniqueCheck_lookups (r : Role) (w : World) :
  calls (snd (UniqueCheck svc r w)) =
    calls w
    ++ (if String.eqb (Handle r) "" then [] else [CallFindByHandle (Handle r)])
    ++ (if handleTakenb r w then []
        else if String.eqb (Name r) "" then [] else [CallFindByName (Name r)]) /\
  (Handle r = "" -> Name r = "" -> UniqueCheck svc r w = (Done None, w)) /\
  (wellBehaved -> store (snd (UniqueCheck svc r w)) = store w).
Proof.
  rewrite UniqueCheck_run. cbn [snd].
  unfold afterUniqueCheck, afterNameLookup, afterHandleLookup, after.
  split; [|split].
  - destruct (handleTakenb r w); destruct (String.eqb (Handle r) "");
      try destruct (String.eqb (Name r) ""); simpl;
      rewrite ?app_nil_r, <- ?app_assoc; reflexivity.
  - intros Hh Hn. unfold uniqueVerdict, handleTakenb, nameTakenb.
    rewrite Hh, Hn. reflexivity.
  - intros Hwb.
    destruct (handleTakenb r w); destruct (String.eqb (Handle r) "");
      try destruct (String.eqb (Name r) ""); simpl;
      rewrite ?(FindByName_reads Hwb), ?(FindByHandle_reads Hwb); reflexivity.
Qed.

(** X11.  [FindByName], [FindByHandle], [Membership] and [UniqueCheck]
    never consult the acting identity or the access controller: two
    services over the same repository answer alike, whatever the caller
    may read.  The three lookups return the repository's answer as it
    is, after exactly one repository call. *)
Theorem passthroughs_ignore_access_control (svc' : role Ctx Store Extra RF) (w : World) :
  repo svc' = repo svc ->
  (forall n, FindByName svc' n w = FindByName svc n w) /\
  (forall h, FindByHandle svc' h w = FindByHandle svc h w) /\
  (forall u, Membership svc' u w = Membership svc u w) /\
  (forall r, UniqueCheck svc' r w = UniqueCheck svc r w) /\
  (forall n, FindByName svc n w =
     let '((r, err), s) := repository.FindByName (repo svc) n (store w) in
     (Done (r, lift err), after w s (CallFindByName n))) /\
  (forall h, FindByHandle svc h w =
     let '((r, err), s) := repository.FindByHandle (repo svc) h (store w) in
     (Done (r, lift err), after w s (CallFindByHandle h))).
Proof.
  intros Hr.
  split; [intros n; unfold FindByName; now rewrite Hr|].
  split; [intros h; unfold FindByHandle; now rewrite Hr|].
  split; [intros u; unfold Membership; now rewrite Hr|].
  split; [intros r; unfold UniqueCheck, uniqueName; now rewrite Hr|].
  split.
  - intros n. unfold FindByName, bind, invoke, ret, after.
    destruct (repository.FindByName (repo svc) n (store w)) as [[r err] s]. reflexivity.
  - intros h. unfold FindByHandle, bind, invoke, ret, after.
    destruct (repository.FindByHandle (repo svc) h (store w)) as [[r err] s]. reflexivity.
Qed.

(** X12.  [Create] reports success exactly when the handle is valid,
    the caller may create roles, neither the handle nor the name is
    taken by another role, and the repository's [Create], called with
    the payload after the lookups, returned no error; the role returned
    and the store left are then the repository's. *)
Theorem Create_succeeds_iff (md : Role) (w : World) (t : option Role) (w' : World) :
  let wu := afterNameLookup md (afterHandleLookup md w) in
  Create IsValid svc md w = (Done (t, None), w') <->
    IsValid (Handle md) = true /\ CanCreateRole (ac svc) (ctx svc) = true /\
    ~ handleTaken md w /\ ~ nameTaken md w /\
    repository.Create (repo svc) md (store wu) = ((t, None), store w') /\
    calls w' = calls wu ++ [CallCreate md].
Proof.
  intros wu. rewrite Create_run. split.
  - destruct (IsValid (Handle md)); simpl; [|discriminate].
    destruct (CanCreateRole (ac svc) (ctx svc)); simpl; [|discriminate].
    unfold createInTx.
    destruct (uniqueVerdict md w) eqn:Hu; [discriminate|].
    apply uniqueVerdict_none in Hu. destruct Hu as [Hh Hn].
    rewrite (afterUniqueCheck_passed md w Hh). fold wu.
    unfold persisted.
    destruct (repository.Create (repo svc) md (store wu)) as [[t1 [e|]] s];
      [discriminate|].
    intros H. inversion H; subst. repeat split; assumption.
  - intros (Hv & Hc & Hh & Hn & Hcr & Hcalls).
    rewrite Hv, Hc. simpl. unfold createInTx.
    assert (Hu : uniqueVerdict md w = None) by now apply uniqueVerdict_none.
    rewrite Hu, (afterUniqueCheck_passed md w Hh). fold wu. rewrite Hcr.
    unfold persisted, after. destruct w' as [s' l']. simpl in *. now subst.
Qed.

(** X13.  The read gate never leaks.  When [FindByID] returns a role,
    it returns no error with it, the role is the one the repository
    fetched for that identifier, and the caller can read it.  When
    [MemberList] returns a non-empty list, the role has passed the same
    gate and the list is the repository's. *)
Theorem read_gate_never_leaks (id : N) (w : World) :
  (forall r err w',
     FindByID svc id w = (Done (Some r, err), w') ->
     err = None /\ id <> 0 /\ fetched id w = (Some r, None) /\
     CanReadRole (ac svc) (ctx svc) (Some r) = true) /\
  (forall mm err w',
     MemberList svc id w = (Done (mm, err), w') -> mm <> [] ->
     id <> 0 /\
     (exists r, fetched id w = (r, None) /\ CanReadRole (ac svc) (ctx svc) r = true) /\
     fst (fst (MemberFindByRoleID (repo svc) id (store (afterFetch id w)))) = mm).
Proof.
  split.
  - intros r err w' H. unfold FindByID in H. rewrite findByID_run in H.
    inversion H as [[Hg Hw]].
    assert (He : err = None).
    { unfold gateVerdict in Hg. destruct (id =? 0); [discriminate|].
      destruct (fetched id w) as [fr [e|]]; [discriminate|].
      destruct (CanReadRole (ac svc) (ctx svc) fr); inversion Hg; reflexivity. }
    subst err. split; [reflexivity|]. now apply gateVerdict_passes.
  - intros mm err w' H Hmm. rewrite MemberList_run in H.
    destruct (gateVerdict id w) as [r [e|]] eqn:Hg.
    + inversion H; subst. contradiction.
    + destruct (gateVerdict_passes id w r Hg) as (Hid & Hf & Hc).
      rewrite (afterGate_nonzero id w Hid) in H.
      split; [exact Hid|]. split; [exists r; auto|].
      destruct (MemberFindByRoleID (repo svc) id (store (afterFetch id w)))
        as [[mm0 err0] s].
      inversion H; subst. reflexivity.
Qed.

End Properties.

(* ------------------------------------------------------------------ *)
(** *** The statements on the in-memory repository *)

Import memory.

Lemma memory_wellBehaved (c : N) : wellBehaved (svc c).
Proof.
  constructor; intros *; simpl; unfold lookup, transition; simpl;
    try match goal with
        | |- context [find ?p ?l] => destruct (find p l)
        end;
    simpl; intros; try reflexivity; discriminate.
Qed.

(** C1, counterexample.  [Merge] with a zero target fails with
    InvalidID after the repository has been called once, for the fetch
    of the source role. *)
Lemma Merge_zero_target_after_fetch :
  Merge (svc 1) 5 0 world0 =
    (Done (Some (asError ErrInvalidID)), {| store := store0; calls := [CallFindByID 5] |}) /\
  isValidationOrAuthorization (asError ErrInvalidID) = true /\
  calls (snd (Merge (svc 1) 5 0 world0)) <> calls world0.
Proof. split; [reflexivity|]. split; [reflexivity|]. discriminate. Qed.

Lemma failures_precede_writes_witness :
  (snd (errorOf isValid (svc 1) (OpMerge 5 0) world0) = gateWorld (svc 1) (OpMerge 5 0) world0 /\
   calls (snd (errorOf isValid (svc 1) (OpMerge 5 0) world0)) = calls world0 ++ [CallFindByID 5]) /\
  errorOf isValid (svc 1) (OpMerge 5 0) world0 =
    (Done (Some (asError ErrInvalidID)), afterFetch (svc 1) 5 world0) /\
  calls (afterFetch (svc 1) 5 world0) = calls world0 ++ [CallFindByID 5].
Proof.
  destruct (failures_precede_writes isValid (svc 1) (OpMerge 5 0) world0) as [H1 H2].
  split.
  - apply (H1 (asError ErrInvalidID)); reflexivity.
  - apply (H2 5 (Some admins)); reflexivity.
Defined.

Lemma Find_visibility_gate_witness :
  CanReadRole accessControl 2 (Some admins) = true /\
  Find (svc 2) withDeleted world0 =
    (Done ([], setIsReadable withDeleted (Some tt), Some (withStack ErrNoPermissions)),
     world0).
Proof.
  split; [reflexivity|].
  destruct (Find_visibility_gate (svc 2) withDeleted world0) as [H _].
  apply H; reflexivity.
Defined.

Lemma newAdmins_handleTaken : handleTaken (svc 1) newAdmins world0.
Proof.
  split; [discriminate|]. exists admins.
  split; [reflexivity|]. split; [reflexivity|discriminate].
Qed.

Lemma Create_order_witness :
  Create isValid (svc 1) newAdmins world0 =
    (Done (None, Some (asError ErrRoleHandleNotUnique)),
     {| store := store0; calls := [CallFindByHandle "admins"] |}).
Proof.
  destruct (Create_order isValid (svc 1) newAdmins world0) as (_ & _ & H).
  destruct (H eq_refl eq_refl) as [Hh _].
  exact (Hh newAdmins_handleTaken).
Defined.

Lemma UniqueCheck_verdict_witness :
  exists res w',
    UniqueCheck (svc 1) newAdmins world0 = (Done res, w') /\
    res = Some (asError ErrRoleHandleNotUnique).
Proof.
  destruct (UniqueCheck_verdict (svc 1) newAdmins world0) as (res & w' & H & Hh & _).
  exists res, w'. split; [exact H|]. apply Hh.
  split; [discriminate|]. exists admins.
  split; [reflexivity|]. split; [reflexivity|discriminate].
Defined.

Lemma errors_leave_store_unchanged_witness :
  store (snd (Create isValid (svc 1) newAdmins world0)) = store world0 /\
  store (snd (errorOf isValid (svc 1) (OpDelete 9) world0)) = store world0.
Proof.
  destruct (errors_leave_store_unchanged isValid (svc 1)) as (Hc & _ & _ & _ & Hop).
  split.
  - apply (Hc newAdmins world0 None (asError ErrRoleHandleNotUnique)). reflexivity.
  - apply (Hop (memory_wellBehaved 1) (OpDelete 9) world0
             (fromRepository ErrRoleNotFound)).
    reflexivity.
Defined.

Lemma Update_only_name_and_handle_witness :
  exists t l,
    fetched (svc 1) 7 world0 = (Some t, None) /\
    Name (applyChanges t visitors) = "Visitors" /\
    Handle (applyChanges t visitors) = "visitors" /\
    ID (applyChanges t visitors) = ID t /\
    ArchivedAt (applyChanges t visitors) = ArchivedAt t /\
    DeletedAt (applyChanges t visitors) = DeletedAt t /\
    calls (snd (Update isValid (svc 1) visitors world0)) =
      calls world0 ++ l ++ [CallUpdate (applyChanges t visitors)] /\
    fst (repository.FindByID repo 7 (store (snd (Update isValid (svc 1) visitors world0)))) =
      (Some {| ID := 7; Name := "Visitors"; Handle := "visitors";
               ArchivedAt := Some 3; DeletedAt := None; Rest := tt |}, None).
Proof.
  destruct (Update_only_name_and_handle isValid (svc 1) visitors world0
              (Some (applyChanges guests visitors))
              (snd (Update isValid (svc 1) visitors world0)) eq_refl)
    as (t & l & Hf & Hn & Hh & Hi & Ha & Hd & _ & _ & Hc & _).
  exists t, l. repeat split; assumption || reflexivity.
Defined.

Lemma transitions_fetch_authorize_transition_witness :
  Merge (svc 1) 5 7 world0 =
    specTransition (svc 1) (CanUpdateRole accessControl) (CallMergeByID 5 7)
      (MergeByID repo 5 7) 5 world0.
Proof.
  destruct (transitions_fetch_authorize_transition (svc 1))
    as (_ & _ & _ & _ & _ & _ & H & _).
  apply H. discriminate.
Defined.

(** C8, counterexample.  [Membership] given the user identifier 0 does
    not fail with InvalidID: it calls the repository and returns its
    answer. *)
Lemma Membership_accepts_zero_user :
  Membership (svc 3) 0 world0 =
    (Done ([], None),
     {| store := store0; calls := [CallMembershipsFindByUserID 0] |}) /\
  snd (fst (memory.repo.(MembershipsFindByUserID) 0 store0)) = None.
Proof. split; reflexivity. Qed.

Lemma zero_identifiers_witness :
  errorOf isValid (svc 1) (OpDelete 0) world0 = (Done (Some (asError ErrInvalidID)), world0) /\
  errorOf isValid (svc 1) (OpMemberAdd 5 0) world0 =
    (Done (Some (asError ErrInvalidID)), afterGate (svc 1) 5 world0).
Proof.
  destruct (zero_identifiers isValid (svc 1) world0) as (H1 & _ & H3 & _).
  split.
  - apply H1. reflexivity.
  - apply (H3 (OpMemberAdd 5 0) 5 (Some admins)); reflexivity.
Defined.

Lemma Create_rejects_invalid_handle_witness :
  Create isValid (svc 1) noHandle world0 =
    (Done (None, Some (asError ErrInvalidHandle)), world0).
Proof.
  apply (Create_rejects_invalid_handle isValid (svc 1) noHandle world0).
  - reflexivity.
  - left. reflexivity.
Defined.

(** For comparison: with a predicate that lets the empty handle through,
    [Create] of a role without a handle reaches the repository. *)
Example Create_empty_handle_passes :
  isValidOrEmpty "" = true /\
  Create isValidOrEmpty (svc 1) noHandle world0 =
    (Done (Some (withID noHandle 8), None),
     {| store := {| roles := [admins; guests; withID noHandle 8];
                    members := members store0 |};
        calls := [CallFindByName "Other"; CallCreate noHandle] |}).
Proof. split; reflexivity. Qed.

Lemma Create_self_exclusion_witness :
  UniqueCheck (svc 1) sameID world0 =
    (Done None,
     {| store := store0; calls := [CallFindByHandle "admins"; CallFindByName "Other"] |}) /\
  Create isValid (svc 1) sameID world0 =
    (Done (Some (withID sameID 8), None),
     {| store := {| roles := [admins; guests; withID sameID 8];
                    members := members store0 |};
        calls := [CallFindByHandle "admins"; CallFindByName "Other"; CallCreate sameID] |}).
Proof.
  apply (Create_self_exclusion isValid (svc 1) sameID world0).
  - reflexivity.
  - reflexivity.
  - left. split; [discriminate|]. split.
    + exists admins. split; [reflexivity|]. split; reflexivity.
    + intros [_ (x & Hx & _)]. discriminate.
Defined.

(* ------------------------------------------------------------------ *)
(** *** The further properties on the in-memory repository *)

Lemma gate_failure_ends_operation_witness :
  errorOf isValid (svc 1) (OpDelete 9) world0 =
    (Done (Some (fromRepository ErrRoleNotFound)), afterFetch (svc 1) 9 world0) /\
  CanDeleteRole blindControl 1 (Some admins) = true /\
  errorOf isValid (svcBlind 1) (OpDelete 5) world0 =
    (Done (Some (withStack ErrNoPermissions)), afterFetch (svcBlind 1) 5 world0).
Proof.
  split; [|split; [reflexivity|]].
  - destruct (gate_failure_ends_operation isValid (svc 1) (OpDelete 9) 9 world0)
      as [H _]; [reflexivity | discriminate |].
    apply (H None). reflexivity.
  - destruct (gate_failure_ends_operation isValid (svcBlind 1) (OpDelete 5) 5 world0)
      as [_ H]; [reflexivity | discriminate |].
    apply (H (Some admins)); reflexivity.
Defined.

Lemma success_means_transition_witness :
  calls (snd (errorOf isValid (svc 1) (OpDelete 7) world0)) =
    calls world0 ++ [CallFindByID 7; CallDeleteByID 7] /\
  DeleteByID repo 7 store0 = (None, store (snd (errorOf isValid (svc 1) (OpDelete 7) world0))).
Proof.
  destruct (success_means_transition isValid (svc 1) (OpDelete 7) world0
              (snd (errorOf isValid (svc 1) (OpDelete 7) world0))
              (CanDeleteRole accessControl) (CallDeleteByID 7) (DeleteByID repo 7) 7
              eq_refl eq_refl eq_refl) as [H _].
  destruct (H eq_refl) as (_ & _ & _ & Ht & Hc).
  split; [exact Hc | exact Ht].
Defined.

Lemma missing_capability_denied_witness :
  errorOf isValid (svc 2) (OpMemberAdd 5 3) world0 =
    (Done (Some (errorsNew "Not allowed to manage role members")),
     afterFetch (svc 2) 5 world0) /\
  isValidationOrAuthorization (errorsNew "Not allowed to manage role members") = false.
Proof.
  apply (missing_capability_denied isValid (svc 2) (OpMemberAdd 5 3) world0
           (CanManageRoleMembers accessControl) (CallMemberAddByID 5 3)
           (MemberAddByID repo 5 3) 5 (Some admins));
    try reflexivity.
  discriminate.
Defined.

Lemma single_write_witness :
  oneWrite world0 (snd (errorOf isValid (svc 1) (OpCreate sameID) world0))
    (fun c => c = CallCreate sameID).
Proof. exact (single_write isValid (svc 1) (OpCreate sameID) world0). Defined.

Lemma queries_never_write_witness :
  store (snd (errorOf isValid (svc 2) (OpMemberList 5) world0)) = store0.
Proof.
  destruct (queries_never_write isValid (svc 2) (OpMemberList 5) world0 eq_refl)
    as (_ & _ & H).
  exact (H (memory_wellBehaved 2)).
Defined.

Lemma reported_errors_witness :
  mayReport (OpMemberAdd (Extra := unit) (RF := unit) 5 3)
    (errorsNew "Not allowed to manage role members") = true /\
  mayReport (OpDelete (Extra := unit) (RF := unit) 9)
    (fromRepository ErrRoleNotFound) = true.
Proof.
  split.
  - apply (reported_errors isValid (svc 2) (OpMemberAdd 5 3) world0 _
             (afterFetch (svc 2) 5 world0)).
    reflexivity.
  - apply (reported_errors isValid (svc 1) (OpDelete 9) world0 _
             (afterFetch (svc 1) 9 world0)).
    reflexivity.
Defined.


Lemma Update_order_witness :
  Update isValid (svc 1) takeover world0 =
    (Done (Some guests, Some (asError ErrRoleNameNotUnique)),
     {| store := store0;
        calls := [CallFindByID 7; CallFindByHandle "guests"; CallFindByName "Admins"] |}).
Proof.
  destruct (Update_order isValid (svc 1) takeover world0) as (_ & _ & H); [discriminate|].
  destruct (H eq_refl eq_refl) as (_ & _ & Hn & _).
  apply (Hn (Some guests)).
  - reflexivity.
  - intros [_ (x & Hx & _ & Hne)]. inversion Hx; subst. now apply Hne.
  - split; [discriminate|]. exists admins.
    split; [reflexivity|]. split; [reflexivity | discriminate].
Defined.

Lemma Find_ignores_caller_predicate_witness :
  Find (svc 1) (setIsReadable withDeleted (Some tt)) world0 = Find (svc 1) withDeleted world0.
Proof.
  exact (proj1 (Find_ignores_caller_predicate (svc 1) withDeleted (Some tt) world0)).
Defined.

Lemma UniqueCheck_lookups_witness :
  UniqueCheck (svc 1) blank world0 = (Done None, world0) /\
  calls (snd (UniqueCheck (svc 1) newAdmins world0)) = [CallFindByHandle "admins"].
Proof.
  split.
  - destruct (UniqueCheck_lookups (svc 1) blank world0) as (_ & H & _).
    apply H; reflexivity.
  - destruct (UniqueCheck_lookups (svc 1) newAdmins world0) as (H & _).
    exact H.
Defined.

Lemma passthroughs_ignore_access_control_witness :
  FindByHandle (svcBlind 3) "admins" world0 = FindByHandle (svc 1) "admins" world0 /\
  fst (FindByHandle (svcBlind 3) "admins" world0) = Done (Some admins, None).
Proof.
  destruct (passthroughs_ignore_access_control (svc 1) (svcBlind 3) world0 eq_refl)
    as (_ & H & _).
  split; [apply H | reflexivity].
Defined.

Lemma Create_succeeds_iff_witness :
  ~ handleTaken (svc 1) sameID world0 /\
  repository.Create repo sameID store0 =
    ((Some (withID sameID 8), None),
     store (snd (Create isValid (svc 1) sameID world0))).
Proof.
  destruct (Create_succeeds_iff isValid (svc 1) sameID world0
              (Some (withID sameID 8)) (snd (Create isValid (svc 1) sameID world0)))
    as [H _].
  destruct (H eq_refl) as (_ & _ & Hh & _ & Hc & _).
  split; [exact Hh | exact Hc].
Defined.

Lemma read_gate_never_leaks_witness :
  fetched (svc 2) 5 world0 = (Some admins, None) /\
  CanReadRole accessControl 2 (Some admins) = true.
Proof.
  destruct (read_gate_never_leaks (svc 2) 5 world0) as [H _].
  destruct (H admins None (afterFetch (svc 2) 5 world0) eq_refl) as (_ & _ & Hf & Hc).
  split; [exact Hf | exact Hc].
Defined.

End spec.
